(** * Karaoke lyrics viewer: a shallow embedding of the web-app components

    The embedding follows the TypeScript sources of the web application:
    [ProgressBar.tsx], [WordTimingDisplay.tsx], [LyricsDisplay.tsx],
    [AudioPlayer.tsx], [App.tsx] and [SongManager.tsx].  Definitions come
    first, one module per source file; the lemmas and theorems follow. *)

From Stdlib Require Import QArith Qfield Qround Lqa Lia Bool Ascii String.
From stdpp Require Import base option list strings pretty gmap.

Local Open Scope Z_scope.
Local Open Scope Q_scope.

Set Warnings "-register-all".

(** ** JavaScript numbers

    A JavaScript [number] is an IEEE-754 double.  Finite doubles are
    modelled by the rational they denote, and the three special values are
    kept apart, so that a division by zero yields what the engine yields
    ([0/0] is [NaN], [x/0] is an infinity) and every comparison with [NaN]
    is false.  Rounding is not modelled (the arithmetic of finite values is
    exact), and the two zeros are identified with [+0].  An operation on
    finite values therefore never overflows to an infinity here: a
    statement that would depend on it carries a bound on the magnitudes,
    or says no more than what holds with and without the overflow. *)
Module JS.

Inductive number : Type :=
| Fin (q : Q)
| PosInf
| NegInf
| NaN.

(** [a < b] on the rationals, as a boolean. *)
Definition Qlt_bool (x y : Q) : bool := negb (Qle_bool y x).

(** The relational operators [<], [<=], [>], [>=]. *)
Definition lt (a b : number) : bool :=
  match a, b with
  | NaN, _ | _, NaN => false
  | Fin x, Fin y => Qlt_bool x y
  | NegInf, NegInf => false
  | NegInf, _ => true
  | PosInf, _ => false
  | Fin _, PosInf => true
  | Fin _, NegInf => false
  end.

Definition le (a b : number) : bool :=
  match a, b with
  | NaN, _ | _, NaN => false
  | Fin x, Fin y => Qle_bool x y
  | NegInf, _ => true
  | PosInf, PosInf => true
  | PosInf, _ => false
  | Fin _, PosInf => true
  | Fin _, NegInf => false
  end.

Definition gt (a b : number) : bool := lt b a.
Definition ge (a b : number) : bool := le b a.

(** The sign of a value, with [0] counted as positive zero. *)
Definition nonneg (a : number) : bool :=
  match a with
  | Fin x => Qle_bool 0 x
  | PosInf => true
  | NegInf => false
  | NaN => false
  end.

Definition is_zero (a : number) : bool :=
  match a with
  | Fin x => Qeq_bool x 0
  | _ => false
  end.

Definition neg (a : number) : number :=
  match a with
  | Fin x => Fin (- x)
  | PosInf => NegInf
  | NegInf => PosInf
  | NaN => NaN
  end.

(** [a - b]. *)
Definition sub (a b : number) : number :=
  match a, b with
  | NaN, _ | _, NaN => NaN
  | Fin x, Fin y => Fin (x - y)
  | PosInf, PosInf => NaN
  | NegInf, NegInf => NaN
  | PosInf, _ => PosInf
  | NegInf, _ => NegInf
  | Fin _, PosInf => NegInf
  | Fin _, NegInf => PosInf
  end.

(** An infinity of the sign [s] ([true] is positive). *)
Definition inf (s : bool) : number := if s then PosInf else NegInf.

(** [a * b]. *)
Definition mul (a b : number) : number :=
  match a, b with
  | NaN, _ | _, NaN => NaN
  | Fin x, Fin y => Fin (x * y)
  | Fin _, _ =>
      if is_zero a then NaN else inf (Bool.eqb (nonneg a) (nonneg b))
  | _, Fin _ =>
      if is_zero b then NaN else inf (Bool.eqb (nonneg a) (nonneg b))
  | _, _ => inf (Bool.eqb (nonneg a) (nonneg b))
  end.

(** [a / b]: a zero divisor gives [NaN] for a zero dividend and an
    infinity otherwise. *)
Definition div (a b : number) : number :=
  match a, b with
  | NaN, _ | _, NaN => NaN
  | Fin x, Fin y =>
      if Qeq_bool y 0
      then (if Qeq_bool x 0 then NaN else inf (nonneg a))
      else Fin (x / y)
  | Fin _, _ => Fin 0
  | _, Fin _ => inf (Bool.eqb (nonneg a) (nonneg b))
  | _, _ => NaN
  end.

(** [Math.max(a, b)] and [Math.min(a, b)]: [NaN] as soon as an argument
    is [NaN]. *)
Definition Math_max (a b : number) : number :=
  match a, b with
  | NaN, _ | _, NaN => NaN
  | _, _ => if lt a b then b else a
  end.

Definition Math_min (a b : number) : number :=
  match a, b with
  | NaN, _ | _, NaN => NaN
  | _, _ => if lt b a then b else a
  end.

(** Two numbers denote the same value.  [NaN] is related to itself here:
    this is the identity of values, not the [===] operator. *)
Definition same (a b : number) : Prop :=
  match a, b with
  | Fin x, Fin y => x == y
  | PosInf, PosInf => True
  | NegInf, NegInf => True
  | NaN, NaN => True
  | _, _ => False
  end.

(** The order of the extended rational line, stated as relations: the
    reference the boolean operators are compared with. *)
Inductive Le : number -> number -> Prop :=
| Le_fin x y : x <= y -> Le (Fin x) (Fin y)
| Le_neg b : b <> NaN -> Le NegInf b
| Le_pos a : a <> NaN -> Le a PosInf.

Inductive Lt : number -> number -> Prop :=
| Lt_fin x y : x < y -> Lt (Fin x) (Fin y)
| Lt_neg b : b <> NaN -> b <> NegInf -> Lt NegInf b
| Lt_pos a : a <> NaN -> a <> PosInf -> Lt a PosInf.

(** [t] lies in the closed interval [[s, e]]. *)
Definition within (s e t : number) : Prop := Le s t /\ Le t e.

(** [Math.floor(a)]. *)
Definition Math_floor (a : number) : number :=
  match a with
  | Fin x => Fin (inject_Z (Qfloor x))
  | _ => a
  end.

(** The integer part of a rational, rounded towards zero. *)
Definition Qtrunc (x : Q) : Z :=
  if Qle_bool 0 x then Qfloor x else Qceiling x.

(** [a % b]: the remainder has the sign of the dividend; it is [NaN] for
    an infinite dividend or a zero divisor, and the dividend itself for an
    infinite divisor. *)
Definition rem (a b : number) : number :=
  match a, b with
  | NaN, _ | _, NaN => NaN
  | Fin x, Fin y =>
      if Qeq_bool y 0 then NaN
      else Fin (x - y * inject_Z (Qtrunc (x / y)))
  | Fin _, _ => a
  | _, _ => NaN
  end.

(** Truthiness of a number: [0] and [NaN] are falsy. *)
Definition truthy (a : number) : bool :=
  match a with
  | Fin x => negb (Qeq_bool x 0)
  | NaN => false
  | _ => true
  end.

(** The Number value of a mathematical integer: the integer itself when it
    fits the 53 bits of a significand, otherwise the nearest double, a tie
    going to the even significand, and an infinity from [2^1024] on. *)
Definition ofInteger (z : Z) : number :=
  let a := Z.abs z in
  let bits := (Z.log2 a + 1)%Z in
  if (bits <=? 53)%Z then Fin (inject_Z z)
  else
    let shift := (bits - 53)%Z in
    let q := Z.shiftr a shift in
    let r := (a - Z.shiftl q shift)%Z in
    let half := (2 ^ (shift - 1))%Z in
    let q := if ((half <? r) || (r =? half) && Z.odd q)%Z then (q + 1)%Z else q in
    let m := Z.shiftl q shift in
    if (2 ^ 1024 <=? m)%Z then inf (0 <=? z)%Z
    else Fin (inject_Z (if (z <? 0)%Z then - m else m)).

End JS.

Import JS.

Infix "=n=" := JS.same (at level 70, no associativity).

(** ** The timed lyric data model

    The interfaces [Syllable], [Word] and [Segment] of [LyricsDisplay.tsx]
    and the document literal of [App.tsx].  [ProgressBar.tsx] and
    [WordTimingDisplay.tsx] declare narrower interfaces of the same
    objects.  The field [end] is spelled [end_]. *)
Module Syllable.
Record t : Type := mk { text : string; start : number; end_ : number }.
End Syllable.

Module Translation.
Record t : Type := mk { literal : string; contextual : option string }.
End Translation.

Module Word.
Record t : Type := mk {
  text : string;
  start : number;
  end_ : number;
  confidence : number;
  syllables : list Syllable.t;
  translation : option Translation.t
}.
End Word.

Module Segment.
Record t : Type := mk {
  id : string;
  text : string;
  start : number;
  end_ : number;
  words : list Word.t
}.
End Segment.

Module Metadata.
Record t : Type := mk {
  title : string;
  artists : list string;
  duration : number;
  language : string;
  alignment_method : string;
  alignment_quality : number
}.
End Metadata.

Module Document.
Record t : Type := mk { metadata : Metadata.t; segments : list Segment.t }.
End Document.

(** ** [ProgressBar.tsx] *)
Module ProgressBar.

(** [segments.find(segment => currentTime >= segment.start &&
    currentTime <= segment.end)]; [undefined] is [None]. *)
Definition getCurrentSegment (segments : list Segment.t) (currentTime : number)
  : option Segment.t :=
  List.find
    (fun segment =>
       JS.ge currentTime (Segment.start segment)
       && JS.le currentTime (Segment.end_ segment))
    segments.

(** [duration > 0 ? (currentTime / duration) * 100 : 0]. *)
Definition progressPercentage (currentTime duration : number) : number :=
  if JS.gt duration (Fin 0)
  then JS.mul (JS.div currentTime duration) (Fin 100)
  else Fin 0.

(** [isActive] of a segment block: [currentSegment?.id === segment.id]. *)
Definition isActive (segments : list Segment.t) (currentTime : number)
    (segment : Segment.t) : bool :=
  match getCurrentSegment segments currentTime with
  | Some currentSegment =>
      bool_decide (Segment.id currentSegment = Segment.id segment)
  | None => false
  end.

(** The time a click asks to seek to: [clientX] of the event, [left] and
    [width] of the bounding rectangle of the track. *)
Definition handleClick (clientX left width duration : number) : number :=
  let clickX := JS.sub clientX left in
  let percentage := JS.div clickX width in
  JS.mul percentage duration.

(** The position and the width of a segment block, in percent of the
    track. *)
Definition startPercent (segment : Segment.t) (duration : number) : number :=
  JS.mul (JS.div (Segment.start segment) duration) (Fin 100).

Definition widthPercent (segment : Segment.t) (duration : number) : number :=
  JS.mul
    (JS.div (JS.sub (Segment.end_ segment) (Segment.start segment)) duration)
    (Fin 100).

End ProgressBar.

(** ** [WordTimingDisplay.tsx] *)
Module WordTimingDisplay.

Definition isSegmentActive (segment : Segment.t) (currentTime : number) : bool :=
  JS.ge currentTime (Segment.start segment)
  && JS.le currentTime (Segment.end_ segment).

Definition isWordActive (word : Word.t) (currentTime : number) : bool :=
  JS.ge currentTime (Word.start word) && JS.le currentTime (Word.end_ word).

(** The percentage of the word already sung at [currentTime]. *)
Definition getWordProgress (currentTime : number) (word : Word.t) : number :=
  if JS.lt currentTime (Word.start word) then Fin 0
  else if JS.gt currentTime (Word.end_ word) then Fin 100
  else
    let duration := JS.sub (Word.end_ word) (Word.start word) in
    let elapsed := JS.sub currentTime (Word.start word) in
    JS.Math_min (Fin 100)
      (JS.Math_max (Fin 0) (JS.mul (JS.div elapsed duration) (Fin 100))).

Definition getSegmentProgress (currentTime : number) (segment : Segment.t)
  : number :=
  if JS.lt currentTime (Segment.start segment) then Fin 0
  else if JS.gt currentTime (Segment.end_ segment) then Fin 100
  else
    let duration := JS.sub (Segment.end_ segment) (Segment.start segment) in
    let elapsed := JS.sub currentTime (Segment.start segment) in
    JS.Math_min (Fin 100)
      (JS.Math_max (Fin 0) (JS.mul (JS.div elapsed duration) (Fin 100))).

(** What the component shows of one word: its text, whether it carries the
    [active] class, the width of its progress line, and the time a click
    on it asks to seek to. *)
Record word_item : Type := mk_word_item {
  item_text : string;
  item_active : bool;
  item_progress : number;
  item_onClick : number
}.

Record view : Type := mk_view {
  view_text : string;
  view_segment_progress : number;
  view_words : list word_item
}.

(** The component: [null] unless the segment is active. *)
Definition render (segment : Segment.t) (currentTime : number) : option view :=
  if negb (isSegmentActive segment currentTime) then None
  else
    Some {|
      view_text := Segment.text segment;
      view_segment_progress := getSegmentProgress currentTime segment;
      view_words :=
        List.map
          (fun word =>
             {| item_text := Word.text word;
                item_active := isWordActive word currentTime;
                item_progress := getWordProgress currentTime word;
                item_onClick := Word.start word |})
          (Segment.words segment)
    |}.

End WordTimingDisplay.

(** ** Rendered elements

    What a render function returns: text nodes and elements with their
    class name, the seek time their click handler requests ([onClick] is
    [() => onSeek?.(t)] where a handler is attached), and their children.
    A JSX child that evaluates to [false] or [undefined] renders nothing
    and is left out of the list. *)
Inductive node : Type :=
| Text (s : string)
| Element (tag className : string) (onClick : option number)
    (children : list node).

(** The text a reader sees: the concatenation of the text nodes in
    document order, as the DOM's [textContent]. *)
Fixpoint textContent (n : node) : string :=
  match n with
  | Text s => s
  | Element _ _ _ children =>
      List.fold_right (fun child acc => textContent child +:+ acc) "" children
  end.

(** [needle] occurs in [s]: the two-argument [String.prototype.includes]
    at position 0. *)
Fixpoint includes (s needle : string) : bool :=
  String.prefix needle s
  || match s with
     | EmptyString => false
     | String _ rest => includes rest needle
     end.

(** ** [LyricsDisplay.tsx] *)
Module LyricsDisplay.

Inductive viewMode : Type := karaoke | syllables | simple.

Section Props.
Variable currentTime : number.
Variable showTranslations : bool.

Definition isWordActive (word : Word.t) : bool :=
  JS.ge currentTime (Word.start word) && JS.le currentTime (Word.end_ word).

Definition isSyllableActive (syllable : Syllable.t) : bool :=
  JS.ge currentTime (Syllable.start syllable)
  && JS.le currentTime (Syllable.end_ syllable).

Definition isSegmentActive (segment : Segment.t) : bool :=
  JS.ge currentTime (Segment.start segment)
  && JS.le currentTime (Segment.end_ segment).

(** [{showTranslations && word.translation && (<span ...>)}]. *)
Definition renderTranslation (word : Word.t) : list node :=
  if showTranslations then
    match Word.translation word with
    | Some translation =>
        [Element "span" "translation" None
           [Text "("; Text (Translation.literal translation); Text ")"]]
    | None => []
    end
  else [].

Definition renderSyllableView (word : Word.t) : node :=
  Element "span"
    ("word " +:+ (if isWordActive word then "active" else ""))
    (Some (Word.start word))
    (imap
       (fun index syllable =>
          Element "span"
            ("syllable "
             +:+ (if isSyllableActive syllable then "syllable-active" else ""))
            None
            (Text (Syllable.text syllable)
             :: (if (Z.of_nat index
                     <? Z.of_nat (length (Word.syllables word)) - 1)%Z
                 then [Text "-"] else [])))
       (Word.syllables word)
     ++ renderTranslation word).

Definition renderKaraokeView (word : Word.t) : node :=
  Element "span"
    ("word " +:+ (if isWordActive word then "karaoke-active" else ""))
    (Some (Word.start word))
    (Text (Word.text word) :: renderTranslation word).

Definition renderSimpleView (word : Word.t) : node :=
  Element "span" "word" (Some (Word.start word))
    (Text (Word.text word) :: renderTranslation word).

(** One word of a segment line, followed by a space unless it is the
    last one. *)
Definition renderWord (mode : viewMode) (count index : nat) (word : Word.t)
  : list node :=
  (match mode with
   | syllables => renderSyllableView word
   | karaoke => renderKaraokeView word
   | simple => renderSimpleView word
   end)
  :: (if (Z.of_nat index <? Z.of_nat count - 1)%Z then [Text " "] else []).

(** A segment line.  The timing line under it, which prints the bounds
    with [toFixed(1)], is left out: number formatting is not modelled. *)
Definition renderSegment (mode : viewMode) (segment : Segment.t) : node :=
  Element "div"
    ("segment " +:+ (if isSegmentActive segment then "segment-active" else ""))
    None
    [Element "div" "segment-text" None
       (List.concat
          (imap (renderWord mode (length (Segment.words segment)))
             (Segment.words segment)))].

Definition render (mode : viewMode) (segments : list Segment.t) : node :=
  Element "div" "lyrics-display" None
    (List.map (renderSegment mode) segments).

End Props.

End LyricsDisplay.

(** ** JavaScript strings

    A string is a sequence of code units; the code units below 256 are
    the characters of [string]. *)
Module JSString.

(** White space and line terminators in that range: TAB, LF, VT, FF, CR,
    SP and NBSP. *)
Definition isWhiteSpace (c : ascii) : bool :=
  let n := nat_of_ascii c in
  ((9 <=? n) && (n <=? 13) || (n =? 32) || (n =? 160))%nat.

Fixpoint trimStart (s : string) : string :=
  match s with
  | EmptyString => EmptyString
  | String c rest => if isWhiteSpace c then trimStart rest else s
  end.

(** [s.trimEnd()]: a character is dropped when it is white space and
    nothing but white space follows it. *)
Fixpoint trimEnd (s : string) : string :=
  match s with
  | EmptyString => EmptyString
  | String c rest =>
      match trimEnd rest with
      | EmptyString => if isWhiteSpace c then EmptyString else String c EmptyString
      | kept => String c kept
      end
  end.

Definition trim (s : string) : string := trimEnd (trimStart s).

(** Truthiness of a string: the empty string alone is falsy. *)
Definition truthy (s : string) : bool :=
  match s with
  | EmptyString => false
  | String _ _ => true
  end.

(** The value of a digit in the given radix (10 or 16). *)
Definition digitValue (radix : N) (c : ascii) : option N :=
  let n := N_of_ascii c in
  let v :=
    if ((48 <=? n) && (n <=? 57))%N then Some (n - 48)%N
    else if ((97 <=? n) && (n <=? 102))%N then Some (n - 87)%N
    else if ((65 <=? n) && (n <=? 70))%N then Some (n - 55)%N
    else None in
  match v with
  | Some d => if (d <? radix)%N then Some d else None
  | None => None
  end.

(** The longest prefix of digits, read in the radix; [None] when the
    prefix is empty. *)
Fixpoint digits (radix : N) (acc : option N) (s : string) : option N :=
  match s with
  | EmptyString => acc
  | String c rest =>
      match digitValue radix c with
      | Some d => digits radix (Some (default 0%N acc * radix + d)%N) rest
      | None => acc
      end
  end.

(** [parseInt(s)] without a radix: leading white space, a sign, an
    optional [0x] prefix, then digits; [NaN] when no digit is found.  The
    result is a double: the integer read, rounded by [JS.ofInteger], so a
    long run of digits gives an infinity. *)
Definition parseInt (s : string) : number :=
  let s := trimStart s in
  let '(negative, s) :=
    match s with
    | String "-" rest => (true, rest)
    | String "+" rest => (false, rest)
    | _ => (false, s)
    end in
  let '(radix, s) :=
    match s with
    | String "0" (String "x" rest) | String "0" (String "X" rest) => (16%N, rest)
    | _ => (10%N, s)
    end in
  match digits radix None s with
  | Some n =>
      let z := Z.of_N n in
      JS.ofInteger (if negative then - z else z)
  | None => NaN
  end.

(** [s.padStart(n, c)] for a pad string of one character. *)
Definition padStart (n : nat) (c : ascii) (s : string) : string :=
  String.string_of_list_ascii (List.repeat c (n - String.length s)) +:+ s.

(** The decimal form of an integer below [2^53] in absolute value, and
    the names of the special values: what [Number.prototype.toString]
    and a template literal give for them.  The forms of the other values
    (fractions, the shortest digits of a larger double, exponent notation)
    are not modelled: [None]. *)
Definition toString (v : number) : option string :=
  match v with
  | Fin q =>
      let n := Qfloor q in
      if Qeq_bool q (inject_Z n) && (Z.abs n <? 2 ^ 53)%Z
      then Some (pretty n) else None
  | PosInf => Some "Infinity"
  | NegInf => Some "-Infinity"
  | NaN => Some "NaN"
  end.

(** [s.toLowerCase()] on code units below 256: the letters [A]-[Z] and
    the capital letters of the range [U+00C0]-[U+00DE] other than the
    multiplication sign. *)
Definition toLowerCaseChar (c : ascii) : ascii :=
  let n := nat_of_ascii c in
  if ((65 <=? n) && (n <=? 90)
      || (192 <=? n) && (n <=? 222) && negb (n =? 215))%nat
  then ascii_of_nat (n + 32) else c.

Fixpoint toLowerCase (s : string) : string :=
  match s with
  | EmptyString => EmptyString
  | String c rest => String (toLowerCaseChar c) (toLowerCase rest)
  end.

(** The code units of a string. *)
Definition codeUnits (s : string) : list N :=
  List.map N_of_ascii (String.list_ascii_of_string s).

End JSString.

(** ** The media element

    The attributes of [HTMLMediaElement] the player touches.  [currentTime]
    and [playbackRate] are declared [double]: assigning a value that is not
    finite throws a [TypeError] and leaves the element as it was.  The
    element is described at the moment of the assignment: it does not play
    on by itself, and what the engine later makes of a position outside of
    what it can seek to is not part of it. *)
Inductive completion : Type :=
| Normal
| TypeError.

(** The setter of [playbackRate] has a second way to fail: a finite rate
    that the user agent does not support throws a [NotSupportedError]. *)
Inductive rateCompletion : Type :=
| RateNormal
| RateTypeError
| RateNotSupportedError.

Module HTMLAudioElement.

Record t : Type := mk {
  currentTime : number;
  duration : number;
  playbackRate : number;
  preservesPitch : bool;
  paused : bool
}.

Definition isFinite (v : number) : bool :=
  match v with
  | Fin _ => true
  | _ => false
  end.

Definition set_currentTime (v : number) (audio : t) : t * completion :=
  if isFinite v then
    ({| currentTime := v; duration := duration audio;
        playbackRate := playbackRate audio;
        preservesPitch := preservesPitch audio; paused := paused audio |},
     Normal)
  else (audio, TypeError).

(** [supportsRate] tells which rates the user agent supports; the
    conversion of the value to a [double] comes first. *)
Definition set_playbackRate (supportsRate : Q -> bool) (v : number) (audio : t)
  : t * rateCompletion :=
  match v with
  | Fin rate =>
      if supportsRate rate then
        ({| currentTime := currentTime audio; duration := duration audio;
            playbackRate := v;
            preservesPitch := preservesPitch audio; paused := paused audio |},
         RateNormal)
      else (audio, RateNotSupportedError)
  | _ => (audio, RateTypeError)
  end.

Definition set_preservesPitch (v : bool) (audio : t) : t :=
  {| currentTime := currentTime audio; duration := duration audio;
     playbackRate := playbackRate audio;
     preservesPitch := v; paused := paused audio |}.

Definition set_paused (v : bool) (audio : t) : t :=
  {| currentTime := currentTime audio; duration := duration audio;
     playbackRate := playbackRate audio;
     preservesPitch := preservesPitch audio; paused := v |}.

End HTMLAudioElement.

(** ** [AudioPlayer.tsx]

    The component's state variables together with the element behind
    [audioRef] ([None] while the ref is [null]).  A handler maps the state
    of the render it runs in to the state of the next render; a state
    update queued before an exception is still applied. *)
Module AudioPlayer.

Record state : Type := mk {
  audioRef : option HTMLAudioElement.t;
  isPlaying : bool;
  currentTime : number;
  duration : number;
  playbackSpeed : number
}.

Definition initial : state :=
  {| audioRef := None; isPlaying := false; currentTime := Fin 0;
     duration := Fin 0; playbackSpeed := Fin 100 |}.

(** The [timeupdate] listener; the second component is the argument of
    [onTimeUpdate]. *)
Definition handleTimeUpdate (audio : HTMLAudioElement.t) (st : state)
  : state * number :=
  let time := HTMLAudioElement.currentTime audio in
  ({| audioRef := audioRef st; isPlaying := isPlaying st; currentTime := time;
      duration := duration st; playbackSpeed := playbackSpeed st |},
   time).

Definition togglePlayPause (st : state) : state :=
  match audioRef st with
  | None => st
  | Some audio =>
      {| audioRef :=
           Some (HTMLAudioElement.set_paused (isPlaying st) audio);
         isPlaying := negb (isPlaying st); currentTime := currentTime st;
         duration := duration st; playbackSpeed := playbackSpeed st |}
  end.

(** The [onChange] handler of the speed selector; [value] is
    [e.target.value], and [supportsRate] the rates of the user agent.
    [setPlaybackSpeed] has run when the element throws, and
    [preservesPitch] is then not assigned. *)
Definition handleSpeedChange (supportsRate : Q -> bool) (value : string)
    (st : state) : state * rateCompletion :=
  match audioRef st with
  | None => (st, RateNormal)
  | Some audio =>
      let speed := JSString.parseInt value in
      match
        HTMLAudioElement.set_playbackRate supportsRate (JS.div speed (Fin 100))
          audio
      with
      | (audio, RateNormal) =>
          ({| audioRef := Some (HTMLAudioElement.set_preservesPitch true audio);
              isPlaying := isPlaying st; currentTime := currentTime st;
              duration := duration st; playbackSpeed := speed |},
           RateNormal)
      | (audio, thrown) =>
          ({| audioRef := Some audio;
              isPlaying := isPlaying st; currentTime := currentTime st;
              duration := duration st; playbackSpeed := speed |},
           thrown)
      end
  end.

(** The [onChange] handler of the range input; [newTime] is
    [parseFloat(e.target.value)].  The last component is the argument
    [onSeek] is called with, if it is called. *)
Definition handleSeek (newTime : number) (st : state)
  : state * option number * completion :=
  match audioRef st with
  | None => (st, None, Normal)
  | Some audio =>
      match HTMLAudioElement.set_currentTime newTime audio with
      | (audio, Normal) =>
          ({| audioRef := Some audio; isPlaying := isPlaying st;
              currentTime := newTime; duration := duration st;
              playbackSpeed := playbackSpeed st |},
           Some newTime, Normal)
      | (audio, TypeError) => (st, None, TypeError)
      end
  end.

(** The values of the six [<option>] elements of the selector. *)
Definition speedOptions : list string := ["50"; "60"; "70"; "80"; "90"; "100"].

(** The method exposed through the ref. *)
Definition seekToTime (time : number) (st : state) : state * completion :=
  match audioRef st with
  | None => (st, Normal)
  | Some audio =>
      match HTMLAudioElement.set_currentTime time audio with
      | (audio, Normal) =>
          ({| audioRef := Some audio; isPlaying := isPlaying st;
              currentTime := time; duration := duration st;
              playbackSpeed := playbackSpeed st |},
           Normal)
      | (audio, TypeError) => (st, TypeError)
      end
  end.

(** The [loadedmetadata] listener; the second component is the argument
    of [onLoadedMetadata]. *)
Definition handleLoadedMetadata (audio : HTMLAudioElement.t) (st : state)
  : state * number :=
  let audioDuration := HTMLAudioElement.duration audio in
  ({| audioRef := audioRef st; isPlaying := isPlaying st;
      currentTime := currentTime st; duration := audioDuration;
      playbackSpeed := playbackSpeed st |},
   audioDuration).

(** The [ended] listener. *)
Definition handleEnded (st : state) : state :=
  {| audioRef := audioRef st; isPlaying := false;
     currentTime := currentTime st; duration := duration st;
     playbackSpeed := playbackSpeed st |}.

(** The time display [m:ss]; [None] where the decimal form of a part is
    not modelled. *)
Definition formatTime (time : number) : option string :=
  let minutes := JS.Math_floor (JS.div time (Fin 60)) in
  let seconds := JS.Math_floor (JS.rem time (Fin 60)) in
  match JSString.toString minutes, JSString.toString seconds with
  | Some m, Some s => Some (m +:+ ":" +:+ JSString.padStart 2 "0" s)
  | _, _ => None
  end.

End AudioPlayer.

(** ** Settled promises and [try]/[catch]

    An awaited promise is fulfilled with a value or rejected with an error;
    [await] of a rejected promise throws inside the [async] function. *)
Inductive settled (A : Type) : Type :=
| Fulfilled (a : A)
| Rejected (error : string).
Arguments Fulfilled {A} a.
Arguments Rejected {A} error.

Definition await {A B : Type} (p : settled A) (k : A -> settled B) : settled B :=
  match p with
  | Fulfilled a => k a
  | Rejected error => Rejected error
  end.

Definition try_catch {A : Type} (body : settled A) (handler : string -> settled A)
  : settled A :=
  match body with
  | Fulfilled a => Fulfilled a
  | Rejected error => handler error
  end.

(** A response to [fetch]: [json] is what [response.json()] settles to, a
    parsed document or a rejection when the body is not JSON. *)
Module Response.
Record t : Type := mk { ok : bool; json : settled Document.t }.
End Response.

(** ** [App.tsx] *)
Module App.

(** The built-in placeholder document. *)
Definition sampleLyricsData : Document.t :=
  {| Document.metadata :=
       {| Metadata.title := "Turkish Song Sample";
          Metadata.artists := ["Artist"];
          Metadata.duration := Fin 147;
          Metadata.language := "tr";
          Metadata.alignment_method := "sample";
          Metadata.alignment_quality := Fin 0 |};
     Document.segments :=
       [ {| Segment.id := "seg_001";
            Segment.text := "Sample Turkish text";
            Segment.start := Fin (1 # 2);
            Segment.end_ := Fin 4;
            Segment.words :=
              [ {| Word.text := "Sample";
                   Word.start := Fin (1 # 2);
                   Word.end_ := Fin (3 # 2);
                   Word.confidence := Fin (8 # 10);
                   Word.syllables :=
                     [ {| Syllable.text := "Sam"; Syllable.start := Fin (1 # 2);
                          Syllable.end_ := Fin 1 |};
                       {| Syllable.text := "ple"; Syllable.start := Fin 1;
                          Syllable.end_ := Fin (3 # 2) |} ];
                   Word.translation :=
                     Some {| Translation.literal := "example";
                             Translation.contextual := Some "example" |} |} ] |} ] |}.

Definition primaryResource : string := "/data/processed/yana_smart_processed.json".
Definition fallbackResource : string := "/data/processed/yana_claude_aligned.json".

(** [loadAlignedData], over what [fetch] settles to for each resource.
    The lines written by [console.error] are not kept. *)
Definition loadAlignedData (fetch : string -> settled Response.t)
  : settled Document.t :=
  try_catch
    (await (fetch primaryResource) (fun response => Response.json response))
    (fun error =>
       try_catch
         (await (fetch fallbackResource) (fun response => Response.json response))
         (fun error2 => Fulfilled sampleLyricsData)).

Inductive tab : Type := lyrics | downloads | manage.

(** The state variables of the component; [audioPlayerRef] holds the
    mounted player ([None] while the ref is [null]). *)
Record state : Type := mk {
  currentTime : number;
  duration : number;
  viewMode : LyricsDisplay.viewMode;
  showTranslations : bool;
  lyricsData : Document.t;
  activeTab : tab;
  audioPlayerRef : option AudioPlayer.state
}.

Definition initial : state :=
  {| currentTime := Fin 0; duration := Fin 0;
     viewMode := LyricsDisplay.karaoke; showTranslations := true;
     lyricsData := sampleLyricsData; activeTab := lyrics;
     audioPlayerRef := None |}.

Definition setCurrentTime (time : number) (st : state) : state :=
  {| currentTime := time; duration := duration st; viewMode := viewMode st;
     showTranslations := showTranslations st; lyricsData := lyricsData st;
     activeTab := activeTab st; audioPlayerRef := audioPlayerRef st |}.

Definition setAudioPlayer (player : option AudioPlayer.state) (st : state)
  : state :=
  {| currentTime := currentTime st; duration := duration st;
     viewMode := viewMode st; showTranslations := showTranslations st;
     lyricsData := lyricsData st; activeTab := activeTab st;
     audioPlayerRef := player |}.

(** The effect's [.then(data => setLyricsData(data))]; a rejection is
    logged and the document in place is kept. *)
Definition onLoaded (loaded : settled Document.t) (st : state) : state :=
  match loaded with
  | Fulfilled data =>
      {| currentTime := currentTime st; duration := duration st;
         viewMode := viewMode st; showTranslations := showTranslations st;
         lyricsData := data; activeTab := activeTab st;
         audioPlayerRef := audioPlayerRef st |}
  | Rejected _ => st
  end.

Definition handleTimeUpdate (time : number) (st : state) : state :=
  setCurrentTime time st.

(** The seek handler given to the lyric views and to the player. *)
Definition handleSeek (time : number) (st : state) : state * completion :=
  let st := setCurrentTime time st in
  match audioPlayerRef st with
  | Some player =>
      let '(player, c) := AudioPlayer.seekToTime time player in
      (setAudioPlayer (Some player) st, c)
  | None => (st, Normal)
  end.

(** The [onSeek] given to the progress bar: [(time) =>
    setCurrentTime(time)]. *)
Definition onProgressBarSeek (time : number) (st : state) : state :=
  setCurrentTime time st.

(** A drag of the player's range input: the player's own handler, then
    [handleSeek] as its [onSeek]. *)
Definition onPlayerSeek (newTime : number) (st : state) : state * completion :=
  match audioPlayerRef st with
  | Some player =>
      match AudioPlayer.handleSeek newTime player with
      | (player, Some time, _) => handleSeek time (setAudioPlayer (Some player) st)
      | (player, None, c) => (setAudioPlayer (Some player) st, c)
      end
  | None => (st, Normal)
  end.

(** The engine's [timeupdate] event, through the player's listener and
    the [onTimeUpdate] callback.  The listener exists only when the
    player is mounted and its element present. *)
Definition onAudioTimeUpdate (st : state) : state :=
  match audioPlayerRef st with
  | Some player =>
      match AudioPlayer.audioRef player with
      | Some audio =>
          let '(player, time) := AudioPlayer.handleTimeUpdate audio player in
          handleTimeUpdate time (setAudioPlayer (Some player) st)
      | None => st
      end
  | None => st
  end.

(** What a render derives from the state for the lyric views: the
    segment the progress bar marks, the lyric lines, and the word-timing
    panels of the segments that contain the current time. *)
Record resolved : Type := mk_resolved {
  currentSegment : option Segment.t;
  lyricsDisplay : node;
  wordTiming : list (option WordTimingDisplay.view)
}.

Definition resolve (segments : list Segment.t) (mode : LyricsDisplay.viewMode)
    (translations : bool) (time : number) : resolved :=
  {| currentSegment := ProgressBar.getCurrentSegment segments time;
     lyricsDisplay := LyricsDisplay.render time translations mode segments;
     wordTiming :=
       List.map (fun segment => WordTimingDisplay.render segment time)
         (List.filter
            (fun segment =>
               JS.ge time (Segment.start segment)
               && JS.le time (Segment.end_ segment))
            segments) |}.

Definition render (st : state) : resolved :=
  resolve (Document.segments (lyricsData st)) (viewMode st)
    (showTranslations st) (currentTime st).

(** The callbacks given to the control panel. *)
Definition setViewMode (mode : LyricsDisplay.viewMode) (st : state) : state :=
  {| currentTime := currentTime st; duration := duration st; viewMode := mode;
     showTranslations := showTranslations st; lyricsData := lyricsData st;
     activeTab := activeTab st; audioPlayerRef := audioPlayerRef st |}.

Definition onTranslationsToggle (st : state) : state :=
  {| currentTime := currentTime st; duration := duration st;
     viewMode := viewMode st;
     showTranslations := negb (showTranslations st);
     lyricsData := lyricsData st; activeTab := activeTab st;
     audioPlayerRef := audioPlayerRef st |}.

(** The [duration] given to the progress bar:
    [duration || lyricsData.metadata.duration]. *)
Definition progressBarDuration (st : state) : number :=
  if JS.truthy (duration st) then duration st
  else Metadata.duration (Document.metadata (lyricsData st)).

(** A click on the progress bar, from the pointer position to the
    callback. *)
Definition onProgressBarClick (clientX left width : number) (st : state)
  : state :=
  onProgressBarSeek
    (ProgressBar.handleClick clientX left width (progressBarDuration st)) st.

End App.

(** ** [SongManager.tsx] *)
Module Status.
Inductive t : Type :=
| new | downloading | downloaded | lyrics_searching | lyrics_found
| processing | ready | error.
End Status.

Module LyricsStatus.
Inductive t : Type := none | searching | found | verified | user_edited.
End LyricsStatus.

Module LyricsSource.
Record t : Type := mk {
  url : string; siteName : string; lyrics : string; confidence : number
}.
End LyricsSource.

Module Song.
(** A field marked [?] in the interface is an [option]. *)
Record t : Type := mk {
  id : string;
  youtubeUrl : string;
  title : string;
  artist : string;
  language : string;
  status : Status.t;
  downloadedAt : option string;
  audioFilePath : option string;
  lyricsStatus : LyricsStatus.t;
  lyricsSources : list LyricsSource.t;
  finalLyrics : string;
  lyricsVerified : bool;
  processingVersion : option string;
  processedAt : option string;
  processedDataPath : option string;
  duration : option number;
  thumbnailUrl : option string;
  addedAt : string;
  updatedAt : string;
  error : option string
}.
End Song.

(** [Partial<Song>]: a key is absent ([None]) or present with a value; for
    an optional field the value present may be [undefined]. *)
Module PartialSong.
Record t : Type := mk {
  id : option string;
  youtubeUrl : option string;
  title : option string;
  artist : option string;
  language : option string;
  status : option Status.t;
  downloadedAt : option (option string);
  audioFilePath : option (option string);
  lyricsStatus : option LyricsStatus.t;
  lyricsSources : option (list LyricsSource.t);
  finalLyrics : option string;
  lyricsVerified : option bool;
  processingVersion : option (option string);
  processedAt : option (option string);
  processedDataPath : option (option string);
  duration : option (option number);
  thumbnailUrl : option (option string);
  addedAt : option string;
  updatedAt : option string;
  error : option (option string)
}.

(** The object literal [{}]. *)
Definition empty : t :=
  mk None None None None None None None None None None
     None None None None None None None None None None.

(** [{ ...a, ...b }] on two partial records. *)
Definition spread (a b : t) : t :=
  let pick {A} (f : t -> option A) := match f b with Some v => Some v | None => f a end in
  mk (pick id) (pick youtubeUrl) (pick title) (pick artist) (pick language)
     (pick status) (pick downloadedAt) (pick audioFilePath) (pick lyricsStatus)
     (pick lyricsSources) (pick finalLyrics) (pick lyricsVerified)
     (pick processingVersion) (pick processedAt) (pick processedDataPath)
     (pick duration) (pick thumbnailUrl) (pick addedAt) (pick updatedAt)
     (pick error).
End PartialSong.

(** The responses of the remote procedures: [ok] and what
    [response.json()] settles to, with the fields the component reads.  A
    field that is absent from the JSON is [None]. *)
Module ApiResponse.
Record t (A : Type) : Type := mk { ok : bool; json : settled A }.
Arguments mk {A} ok json.
Arguments ok {A} t.
Arguments json {A} t.
End ApiResponse.

Module VideoMetadata.
Record t : Type := mk {
  title : option string;
  artist : option string;
  uploader : option string;
  duration : option number;
  thumbnail : option string;
  description : option string
}.
End VideoMetadata.

Module DownloadResult.
Record t : Type := mk { filePath : option string }.
End DownloadResult.

Module LyricsData.
Record t : Type := mk { sources : option (list LyricsSource.t) }.
End LyricsData.

Module ProcessResult.
Record t : Type := mk { dataPath : option string }.
End ProcessResult.

Module SongManager.

(** The component's state variables, the browser's [localStorage], and
    the messages shown by [alert]. *)
Record state : Type := mk {
  songs : list Song.t;
  newYoutubeUrl : string;
  selectedSong : option Song.t;
  editMode : bool;
  localStorage : gmap string string;
  alerts : list string
}.

(** One reading of the clock: [Date.now()] and
    [new Date().toISOString()]. *)
Record clock : Type := mk_clock { Date_now : Z; toISOString : string }.

Definition storageKey : string := "karaokeSongLibrary".

(** The alternatives of the pattern
    [/(?:youtube\.com\/watch\?v=|youtu\.be\/|youtube\.com\/embed\/)([^&\n?#]+)/]. *)
Definition alternatives : list string :=
  ["youtube.com/watch?v="; "youtu.be/"; "youtube.com/embed/"].

(** The character class [[^&\n?#]]. *)
Definition inClass (c : ascii) : bool :=
  negb (Ascii.eqb c "&" || Ascii.eqb c "010" || Ascii.eqb c "?" || Ascii.eqb c "#").

Fixpoint takeWhile (p : ascii -> bool) (s : string) : string :=
  match s with
  | EmptyString => EmptyString
  | String c rest => if p c then String c (takeWhile p rest) else EmptyString
  end.

Fixpoint dropChars (n : nat) (s : string) : string :=
  match n, s with
  | O, _ => s
  | S n, String _ rest => dropChars n rest
  | S _, EmptyString => EmptyString
  end.

(** One alternative followed by the greedy group, at the start of [s];
    the group must take at least one character. *)
Definition matchAlternative (s alt : string) : option string :=
  if String.prefix alt s then
    let group := takeWhile inClass (dropChars (String.length alt) s) in
    if JSString.truthy group then Some group else None
  else None.

(** The pattern at the start of [s]: the alternatives are tried in
    order. *)
Definition matchHere (s : string) : option string :=
  List.fold_right
    (fun alt other =>
       match matchAlternative s alt with
       | Some group => Some group
       | None => other
       end)
    None alternatives.

(** The leftmost match, as [String.prototype.match] finds it; the result
    is the captured group [match[1]]. *)
Fixpoint regexMatch (s : string) : option string :=
  match matchHere s with
  | Some group => Some group
  | None =>
      match s with
      | EmptyString => None
      | String _ rest => regexMatch rest
      end
  end.

Definition extractVideoId (url : string) : option string := regexMatch url.

(** [{ ...song, ...updates }]. *)
Definition spread (song : Song.t) (updates : PartialSong.t) : Song.t :=
  {| Song.id := default (Song.id song) (PartialSong.id updates);
     Song.youtubeUrl := default (Song.youtubeUrl song) (PartialSong.youtubeUrl updates);
     Song.title := default (Song.title song) (PartialSong.title updates);
     Song.artist := default (Song.artist song) (PartialSong.artist updates);
     Song.language := default (Song.language song) (PartialSong.language updates);
     Song.status := default (Song.status song) (PartialSong.status updates);
     Song.downloadedAt :=
       default (Song.downloadedAt song) (PartialSong.downloadedAt updates);
     Song.audioFilePath :=
       default (Song.audioFilePath song) (PartialSong.audioFilePath updates);
     Song.lyricsStatus :=
       default (Song.lyricsStatus song) (PartialSong.lyricsStatus updates);
     Song.lyricsSources :=
       default (Song.lyricsSources song) (PartialSong.lyricsSources updates);
     Song.finalLyrics := default (Song.finalLyrics song) (PartialSong.finalLyrics updates);
     Song.lyricsVerified :=
       default (Song.lyricsVerified song) (PartialSong.lyricsVerified updates);
     Song.processingVersion :=
       default (Song.processingVersion song) (PartialSong.processingVersion updates);
     Song.processedAt := default (Song.processedAt song) (PartialSong.processedAt updates);
     Song.processedDataPath :=
       default (Song.processedDataPath song) (PartialSong.processedDataPath updates);
     Song.duration := default (Song.duration song) (PartialSong.duration updates);
     Song.thumbnailUrl :=
       default (Song.thumbnailUrl song) (PartialSong.thumbnailUrl updates);
     Song.addedAt := default (Song.addedAt song) (PartialSong.addedAt updates);
     Song.updatedAt := default (Song.updatedAt song) (PartialSong.updatedAt updates);
     Song.error := default (Song.error song) (PartialSong.error updates) |}.

Definition setUpdatedAt (now : string) (song : Song.t) : Song.t :=
  spread song
    (PartialSong.mk None None None None None None None None None None
       None None None None None None None None (Some now) None).

(** The record an update writes for a song: the callback of [songs.map]
    in [updateSong]. *)
Definition updated (songId : string) (updates : PartialSong.t) (now : string)
    (song : Song.t) : Song.t :=
  if bool_decide (Song.id song = songId)
  then setUpdatedAt now (spread song updates)
  else song.

(** *** Language detection

    The patterns are character classes without flags: a text matches
    when one of its code units is in the class. *)
Definition inRange (lo hi u : N) : bool := ((lo <=? u) && (u <=? hi))%N.

(** The range [U+0600]-[U+06FF]. *)
Definition arabic (u : N) : bool := inRange 0x0600 0x06FF u.
(** The range [U+4E00]-[U+9FFF]. *)
Definition chinese (u : N) : bool := inRange 0x4e00 0x9fff u.
(** The ranges [U+3040]-[U+309F] and [U+30A0]-[U+30FF]. *)
Definition japanese (u : N) : bool := inRange 0x3040 0x309f u || inRange 0x30a0 0x30ff u.
(** The range [U+0400]-[U+04FF]. *)
Definition russian (u : N) : bool := inRange 0x0400 0x04ff u.
(** The six letters [U+011E], [U+011F], [U+0130], [U+0131], [U+015E]
    and [U+015F]. *)
Definition turkish (u : N) : bool :=
  existsb (N.eqb u) [0x011e; 0x011f; 0x0130; 0x0131; 0x015e; 0x015f]%N.
(** The thirty-one letters of the French class, [U+00E0] to [U+00FF]
    without the division sign. *)
Definition french (u : N) : bool :=
  existsb (N.eqb u)
    [0xe0; 0xe1; 0xe2; 0xe3; 0xe4; 0xe5; 0xe6; 0xe7; 0xe8; 0xe9; 0xea; 0xeb;
     0xec; 0xed; 0xee; 0xef; 0xf0; 0xf1; 0xf2; 0xf3; 0xf4; 0xf5; 0xf6; 0xf8;
     0xf9; 0xfa; 0xfb; 0xfc; 0xfd; 0xfe; 0xff]%N.
(** The letters a-umlaut, o-umlaut, u-umlaut and sharp s. *)
Definition german (u : N) : bool := existsb (N.eqb u) [0xe4; 0xf6; 0xfc; 0xdf]%N.
(** The five acute vowels, n-tilde and u-umlaut. *)
Definition spanish (u : N) : bool :=
  existsb (N.eqb u) [0xe1; 0xe9; 0xed; 0xf3; 0xfa; 0xf1; 0xfc]%N.

(** The chain of tests of [detectLanguage], on the code units of the
    lower-cased text. *)
Definition languageOf (text : list N) : string :=
  if existsb arabic text then "ar"
  else if existsb chinese text then "zh"
  else if existsb japanese text then "ja"
  else if existsb russian text then "ru"
  else if existsb turkish text then "tr"
  else if existsb french text then "fr"
  else if existsb german text then "de"
  else if existsb spanish text then "es"
  else "en".

(** [detectLanguage(title, description)].  The callers pass fields of a
    JSON answer: an absent title is [undefined], which the template
    literal prints as such. *)
Definition detectLanguage (title description : option string) : string :=
  let text :=
    JSString.toLowerCase
      (default "undefined" title +:+ " " +:+ default "" description) in
  languageOf (JSString.codeUnits text).

(** [a || b] on strings, with an absent [a] as [undefined]. *)
Definition orString (a : option string) (b : string) : string :=
  match a with
  | Some s => if JSString.truthy s then s else b
  | None => b
  end.

(** The places where the pipeline reads the clock. *)
Inductive site : Type :=
| atDownloading | atMetadata | atDownloadedAt | atDownloaded | atSearching
| atLyrics | atLyricsFailed | atProcessing | atProcessedAt | atProcessed
| atProcessFailed | atFailed.

(** The update [extractMetadata] makes from the answer. *)
Definition metadataUpdates (song : Song.t) (metadata : VideoMetadata.t)
  : PartialSong.t :=
  PartialSong.mk None None
    (Some (orString (VideoMetadata.title metadata) (Song.title song)))
    (Some (orString (VideoMetadata.artist metadata)
             (orString (VideoMetadata.uploader metadata) "Unknown")))
    (Some (detectLanguage (VideoMetadata.title metadata)
             (VideoMetadata.description metadata)))
    None None None None None None None None None None
    (Some (VideoMetadata.duration metadata))
    (Some (VideoMetadata.thumbnail metadata))
    None None None.

(** [sources.length >= 2 && sources[0].lyrics === sources[1].lyrics &&
    sources[0].lyrics.length > 100]. *)
Definition verifiedSources (sources : list LyricsSource.t) : bool :=
  match sources with
  | first :: second :: _ =>
      bool_decide (LyricsSource.lyrics first = LyricsSource.lyrics second)
      && (100 <? String.length (LyricsSource.lyrics first))%nat
  | _ => false
  end.

(** The update [searchLyrics] makes from the sources found. *)
Definition lyricsUpdates (sources : list LyricsSource.t) : PartialSong.t :=
  let verified := verifiedSources sources in
  PartialSong.mk None None None None None
    (Some (if verified then Status.lyrics_found else Status.lyrics_searching))
    None None
    (Some (if verified then LyricsStatus.verified else LyricsStatus.found))
    (Some sources)
    (Some (orString (LyricsSource.lyrics <$> head sources) ""))
    (Some verified)
    None None None None None None None None.

(** The pre-populated library; the four arguments are the readings of
    the clock in the literal. *)
Definition defaultSongs (downloadedAt processedAt addedAt updatedAt : string)
  : list Song.t :=
  [ {| Song.id := "yana-yana-semicenk-reynmen";
       Song.youtubeUrl := "https://youtu.be/Q3cj3lVCxr0";
       Song.title := "Yana Yana";
       Song.artist := "Semicenk & Reynmen";
       Song.language := "tr";
       Song.status := Status.ready;
       Song.downloadedAt := Some downloadedAt;
       Song.audioFilePath := Some "/data/raw/yana.mp3";
       Song.lyricsStatus := LyricsStatus.verified;
       Song.lyricsSources :=
         [ {| LyricsSource.url := "https://example-lyrics-site1.com/yana-yana";
              LyricsSource.siteName := "LyricsSite1";
              LyricsSource.lyrics := "[Processed and verified lyrics]";
              LyricsSource.confidence := Fin (95 # 100) |} ];
       Song.finalLyrics := "[Final verified lyrics content]";
       Song.lyricsVerified := true;
       Song.processingVersion := Some "1.0.0";
       Song.processedAt := Some processedAt;
       Song.processedDataPath := Some "/data/processed/yana_smart_processed.json";
       Song.duration := Some (Fin (14246 # 100));
       Song.thumbnailUrl := None;
       Song.addedAt := addedAt;
       Song.updatedAt := updatedAt;
       Song.error := None |} ].

(** The conditions under which a song card shows its buttons. *)
Definition showsPlayButton (song : Song.t) : bool :=
  match Song.status song with
  | Status.ready => true
  | _ => false
  end.

Definition showsProcessButton (song : Song.t) : bool :=
  match Song.status song with
  | Status.lyrics_found => true
  | _ => false
  end
  && negb (Song.lyricsVerified song).

Definition showsRetryButton (song : Song.t) : bool :=
  match Song.status song with
  | Status.error => true
  | _ => false
  end.

Section Storage.
(** [JSON.stringify] on a song collection. *)
Variable JSON_stringify : list Song.t -> string.

Definition saveSongs (updatedSongs : list Song.t) (st : state) : state :=
  {| songs := updatedSongs;
     newYoutubeUrl := newYoutubeUrl st;
     selectedSong := selectedSong st;
     editMode := editMode st;
     localStorage :=
       <[storageKey := JSON_stringify updatedSongs]> (localStorage st);
     alerts := alerts st |}.

(** [updateSong] reads [songs], the collection of the render its
    closure was created in, which is passed as [rendered]. *)
Definition updateSong (rendered : list Song.t) (songId : string)
    (updates : PartialSong.t) (now : string) (st : state) : state :=
  let updatedSongs := List.map (updated songId updates now) rendered in
  saveSongs updatedSongs st.

Definition updateSongStatus (rendered : list Song.t) (songId : string)
    (status : Status.t) (additionalUpdates : PartialSong.t) (now : string)
    (st : state) : state :=
  updateSong rendered songId
    (PartialSong.spread
       (PartialSong.mk None None None None None (Some status) None None None
          None None None None None None None None None None None)
       additionalUpdates)
    now st.

Definition alert (message : string) (st : state) : state :=
  {| songs := songs st; newYoutubeUrl := newYoutubeUrl st;
     selectedSong := selectedSong st; editMode := editMode st;
     localStorage := localStorage st; alerts := alerts st ++ [message] |}.

Definition setNewYoutubeUrl (url : string) (st : state) : state :=
  {| songs := songs st; newYoutubeUrl := url;
     selectedSong := selectedSong st; editMode := editMode st;
     localStorage := localStorage st; alerts := alerts st |}.

Definition newSong (now : clock) (url : string) : Song.t :=
  {| Song.id := "song-" +:+ pretty (Date_now now);
     Song.youtubeUrl := url;
     Song.title := "Extracting...";
     Song.artist := "Unknown";
     Song.language := "auto-detect";
     Song.status := Status.new;
     Song.downloadedAt := None;
     Song.audioFilePath := None;
     Song.lyricsStatus := LyricsStatus.none;
     Song.lyricsSources := [];
     Song.finalLyrics := "";
     Song.lyricsVerified := false;
     Song.processingVersion := None;
     Song.processedAt := None;
     Song.processedDataPath := None;
     Song.duration := None;
     Song.thumbnailUrl := None;
     Song.addedAt := toISOString now;
     Song.updatedAt := toISOString now;
     Song.error := None |}.

(** [addNewSong], up to the first point where it waits for the network:
    the guards, the save of the new record, and the first step of
    [processNewSong], which runs before the metadata request is
    awaited: [extractMetadata] marks the song as downloading through
    [updateSong], over the [songs] of the render the handler was
    created in. *)
Definition addNewSong (now : clock) (st : state) : state :=
  if negb (JSString.truthy (JSString.trim (newYoutubeUrl st))) then st
  else
    match extractVideoId (newYoutubeUrl st) with
    | Some videoId =>
        if negb (JSString.truthy videoId)
        then alert "Please enter a valid YouTube URL" st
        else
          let song := newSong now (newYoutubeUrl st) in
          let updatedSongs := song :: songs st in
          let st1 := saveSongs updatedSongs st in
          let st2 := setNewYoutubeUrl "" st1 in
          updateSongStatus (songs st) (Song.id song) Status.downloading
            PartialSong.empty (toISOString now) st2
    | None => alert "Please enter a valid YouTube URL" st
    end.

(** [saveEditedSong]: the edited fields are written through
    [updateSong], then the modal is closed. *)
Definition saveEditedSong (now : string) (st : state) : state :=
  match selectedSong st with
  | None => st
  | Some selected =>
      let st1 :=
        updateSong (songs st) (Song.id selected)
          (PartialSong.mk None None (Some (Song.title selected))
             (Some (Song.artist selected)) (Some (Song.language selected))
             None None None (Some LyricsStatus.user_edited) None
             (Some (Song.finalLyrics selected)) None None None None None
             None None None None)
          now st in
      {| songs := songs st1; newYoutubeUrl := newYoutubeUrl st1;
         selectedSong := None; editMode := false;
         localStorage := localStorage st1; alerts := alerts st1 |}
  end.

(** [JSON.parse] on a stored entry: the collection, or the rejection of
    a text that is not JSON. *)
Variable JSON_parse : string -> settled (list Song.t).

(** [loadSongs]: the stored collection if there is one, else the
    pre-populated one, which is stored.  An entry that does not parse
    throws out of the effect. *)
Definition loadSongs (defaults : list Song.t) (st : state) : settled state :=
  match localStorage st !! storageKey with
  | Some savedSongs =>
      if JSString.truthy savedSongs then
        await (JSON_parse savedSongs)
          (fun parsed =>
             Fulfilled
               {| songs := parsed; newYoutubeUrl := newYoutubeUrl st;
                  selectedSong := selectedSong st; editMode := editMode st;
                  localStorage := localStorage st; alerts := alerts st |})
      else Fulfilled (saveSongs defaults st)
  | None => Fulfilled (saveSongs defaults st)
  end.

Definition handleEditSong (song : Song.t) (st : state) : state :=
  {| songs := songs st; newYoutubeUrl := newYoutubeUrl st;
     selectedSong := Some song; editMode := true;
     localStorage := localStorage st; alerts := alerts st |}.

(** *** The processing pipeline

    The functions of the pipeline belong to one render: [rendered] is its
    [songs], which every [updateSong] of the run maps over.  An error is
    carried by its message. *)
Section Pipeline.
Variable rendered : list Song.t.
Variable clockAt : site -> string.

Definition statusUpdate (status : Status.t) : PartialSong.t :=
  PartialSong.mk None None None None None (Some status) None None None
    None None None None None None None None None None None.

Definition errorUpdate (message : string) : PartialSong.t :=
  PartialSong.mk None None None None None None None None None
    None None None None None None None None None None (Some (Some message)).

Definition processSong (songId : string)
    (response : settled (ApiResponse.t ProcessResult.t)) (st : state) : state :=
  let st := updateSongStatus rendered songId Status.processing PartialSong.empty
              (clockAt atProcessing) st in
  let outcome :=
    await response
      (fun response =>
         if ApiResponse.ok response then ApiResponse.json response
         else Rejected "Processing failed") in
  match outcome with
  | Fulfilled result =>
      updateSong rendered songId
        (PartialSong.mk None None None None None (Some Status.ready) None None
           None None None None (Some (Some "1.0.0"))
           (Some (Some (clockAt atProcessedAt)))
           (Some (ProcessResult.dataPath result)) None None None None None)
        (clockAt atProcessed) st
  | Rejected message =>
      updateSongStatus rendered songId Status.error (errorUpdate message)
        (clockAt atProcessFailed) st
  end.

Definition extractMetadata (song : Song.t)
    (response : settled (ApiResponse.t VideoMetadata.t)) (st : state) : state :=
  let st := updateSongStatus rendered (Song.id song) Status.downloading
              PartialSong.empty (clockAt atDownloading) st in
  match response with
  | Fulfilled response =>
      if ApiResponse.ok response then
        match ApiResponse.json response with
        | Fulfilled metadata =>
            updateSong rendered (Song.id song) (metadataUpdates song metadata)
              (clockAt atMetadata) st
        | Rejected _ => st
        end
      else st
  | Rejected _ => st
  end.

(** [downloadAudio]: the state, and the message of the error it throws,
    if it throws. *)
Definition downloadAudio (song : Song.t)
    (response : settled (ApiResponse.t DownloadResult.t)) (st : state)
  : state * option string :=
  let outcome :=
    await response
      (fun response =>
         if ApiResponse.ok response then ApiResponse.json response
         else Rejected "Download failed") in
  match outcome with
  | Fulfilled result =>
      (updateSong rendered (Song.id song)
         (PartialSong.mk None None None None None (Some Status.downloaded)
            (Some (Some (clockAt atDownloadedAt)))
            (Some (DownloadResult.filePath result))
            None None None None None None None None None None None None)
         (clockAt atDownloaded) st,
       None)
  | Rejected message => (st, Some ("Audio download failed: " +:+ message))
  end.

Definition searchLyrics (song : Song.t)
    (response : settled (ApiResponse.t LyricsData.t))
    (processResponse : settled (ApiResponse.t ProcessResult.t)) (st : state)
  : state :=
  let st :=
    updateSong rendered (Song.id song)
      (PartialSong.mk None None None None None (Some Status.lyrics_searching)
         None None (Some LyricsStatus.searching) None None None None None None
         None None None None None)
      (clockAt atSearching) st in
  let failed st :=
    updateSong rendered (Song.id song)
      (PartialSong.mk None None None None None None None None
         (Some LyricsStatus.none) None None None None None None None None None
         None None)
      (clockAt atLyricsFailed) st in
  match response with
  | Fulfilled response =>
      if ApiResponse.ok response then
        match ApiResponse.json response with
        | Fulfilled lyricsData =>
            let sources := default [] (LyricsData.sources lyricsData) in
            let st :=
              updateSong rendered (Song.id song) (lyricsUpdates sources)
                (clockAt atLyrics) st in
            if verifiedSources sources
            then processSong (Song.id song) processResponse st
            else st
        | Rejected _ => failed st
        end
      else st
  | Rejected _ => failed st
  end.

(** What the four requests of a run settle to. *)
Record network : Type := mk_network {
  metadataResponse : settled (ApiResponse.t VideoMetadata.t);
  downloadResponse : settled (ApiResponse.t DownloadResult.t);
  lyricsResponse : settled (ApiResponse.t LyricsData.t);
  processResponse : settled (ApiResponse.t ProcessResult.t)
}.

Definition processNewSong (song : Song.t) (net : network) (st : state) : state :=
  let st := extractMetadata song (metadataResponse net) st in
  match downloadAudio song (downloadResponse net) st with
  | (st, None) =>
      searchLyrics song (lyricsResponse net) (processResponse net) st
  | (st, Some message) =>
      updateSongStatus rendered (Song.id song) Status.error
        (errorUpdate message) (clockAt atFailed) st
  end.

End Pipeline.

End Storage.

End SongManager.

(** ** Predicates of the statements *)

(** The closed interval of the segment contains the time. *)
Definition containsTime (time : number) (segment : Segment.t) : Prop :=
  JS.within (Segment.start segment) (Segment.end_ segment) time.

(** The computation shared by [getWordProgress] and [getSegmentProgress],
    over the bounds of the unit. *)
Definition percentWithin (time start end_ : number) : number :=
  if JS.lt time start then Fin 0
  else if JS.gt time end_ then Fin 100
  else
    JS.Math_min (Fin 100)
      (JS.Math_max (Fin 0)
         (JS.mul (JS.div (JS.sub time start) (JS.sub end_ start)) (Fin 100))).

(** What a resource yields when it is fetched and read as JSON. *)
Definition loads (fetch : string -> settled Response.t) (url : string)
  : settled Document.t :=
  await (fetch url) (fun response => Response.json response).

(** The document has at least one segment to show. *)
Definition nonEmpty (document : Document.t) : Prop :=
  Document.segments document <> [].

(** Every character of the string is white space. *)
Fixpoint blank (s : string) : Prop :=
  match s with
  | EmptyString => True
  | String c rest => JSString.isWhiteSpace c = true /\ blank rest
  end.

(** Every character of the string satisfies the test. *)
Fixpoint everyChar (p : ascii -> bool) (s : string) : Prop :=
  match s with
  | EmptyString => True
  | String c rest => p c = true /\ everyChar p rest
  end.

(** The string is empty or begins with a character outside the class of
    the video id. *)
Definition endsGroup (s : string) : Prop :=
  match s with
  | EmptyString => True
  | String c _ => SongManager.inClass c = false
  end.

(** The update leaves the descriptive fields of a song alone. *)
Definition keepsDescription (updates : PartialSong.t) : Prop :=
  PartialSong.id updates = None
  /\ PartialSong.youtubeUrl updates = None
  /\ PartialSong.title updates = None
  /\ PartialSong.artist updates = None
  /\ PartialSong.language updates = None
  /\ PartialSong.duration updates = None
  /\ PartialSong.thumbnailUrl updates = None
  /\ PartialSong.audioFilePath updates = None
  /\ PartialSong.downloadedAt updates = None
  /\ PartialSong.addedAt updates = None.

(** The update does not make the button for manual processing appear. *)
Definition quietUpdate (updates : PartialSong.t) : Prop :=
  forall (song : Song.t) (now : string),
    SongManager.showsProcessButton song = false ->
    SongManager.showsProcessButton
      (SongManager.setUpdatedAt now (SongManager.spread song updates))
    = false.

(** No song of the collection shows the button for manual processing. *)
Definition noManualProcessing (library : list Song.t) : Prop :=
  forall song, song ∈ library -> SongManager.showsProcessButton song = false.

(** The character is in the ASCII range. *)
Definition isAscii (c : ascii) : bool := (N_of_ascii c <? 128)%N.

(** The seek time the click handler of a rendered element requests. *)
Definition onClickOf (n : node) : option number :=
  match n with
  | Element _ _ onClick _ => onClick
  | Text _ => None
  end.

(** The text of a list of sibling nodes. *)
Definition textOf (children : list node) : string :=
  List.fold_right (fun child acc => textContent child +:+ acc) "" children.

(** The element a view mode renders for a word. *)
Definition wordView (time : number) (translations : bool)
    (mode : LyricsDisplay.viewMode) (word : Word.t) : node :=
  match mode with
  | LyricsDisplay.syllables =>
      LyricsDisplay.renderSyllableView time translations word
  | LyricsDisplay.karaoke =>
      LyricsDisplay.renderKaraokeView time translations word
  | LyricsDisplay.simple =>
      LyricsDisplay.renderSimpleView translations word
  end.

(** The translation suffix of a word, as text. *)
Definition translationSuffix (translations : bool) (word : Word.t) : string :=
  match (if translations then Word.translation word else None) with
  | Some translation => "(" +:+ Translation.literal translation +:+ ")"
  | None => ""
  end.

(** What a seek must not disturb: the play state and the speed of the
    player, and the rate of its element. *)
Definition playback (st : App.state)
  : option (bool * number * option (number * bool)) :=
  (fun player =>
     (AudioPlayer.isPlaying player, AudioPlayer.playbackSpeed player,
      (fun audio =>
         (HTMLAudioElement.playbackRate audio, HTMLAudioElement.paused audio))
      <$> AudioPlayer.audioRef player))
  <$> App.audioPlayerRef st.

(** A mounted player at 70% speed, playing at second 3. *)
Definition seekExample : App.state :=
  App.mk (Fin 0) (Fin 147) LyricsDisplay.karaoke true App.sampleLyricsData
    App.lyrics
    (Some (AudioPlayer.mk
             (Some (HTMLAudioElement.mk (Fin 3) (Fin 147) (Fin (7 # 10)) true false))
             true (Fin 3) (Fin 147) (Fin 70))).

(** The rates of a user agent that supports the rate 0 and the rates from
    1/16 to 16, as the Chromium engine does. *)
Definition ratesUpToSixteen (rate : Q) : bool :=
  Qeq_bool rate 0 || Qle_bool (1 # 16) rate && Qle_bool rate 16.

(** A magnitude of at most [2^1022]: the difference of two such values is
    inside the range of the finite doubles. *)
Definition halfRange (q : Q) : Prop :=
  - inject_Z (2 ^ 1022) <= q /\ q <= inject_Z (2 ^ 1022).

(** * Properties *)

(** ** The order on numbers *)
Section NumberOrder.

Lemma Qlt_bool_iff (x y : Q) : JS.Qlt_bool x y = true <-> x < y.
Proof.
  unfold JS.Qlt_bool. rewrite negb_true_iff. split.
  - intros H. apply Qnot_le_lt. intros Hle.
    apply Qle_bool_iff in Hle. congruence.
  - intros H. destruct (Qle_bool y x) eqn:E; [|reflexivity].
    apply Qle_bool_iff in E. exfalso. exact (Qlt_not_le _ _ H E).
Qed.

Lemma le_spec (a b : number) : JS.le a b = true <-> JS.Le a b.
Proof.
  split.
  - destruct a, b; simpl; intros H; try discriminate;
      try (constructor; congruence).
    constructor. by apply Qle_bool_iff.
  - intros H. destruct H as [x y H | c H | c H].
    + simpl. by apply Qle_bool_iff.
    + destruct c; simpl; congruence.
    + destruct c; simpl; congruence.
Qed.

Lemma lt_spec (a b : number) : JS.lt a b = true <-> JS.Lt a b.
Proof.
  split.
  - destruct a, b; simpl; intros H; try discriminate;
      try (constructor; congruence).
    constructor. by apply Qlt_bool_iff.
  - intros H. destruct H as [x y H | c H1 H2 | c H1 H2].
    + simpl. by apply Qlt_bool_iff.
    + destruct c; simpl; congruence.
    + destruct c; simpl; congruence.
Qed.

Lemma Le_trans (a b c : number) : JS.Le a b -> JS.Le b c -> JS.Le a c.
Proof.
  intros H1 H2. destruct H1 as [x y H1 | d H1 | d H1].
  - inversion H2; subst.
    + constructor. eapply Qle_trans; eassumption.
    + constructor. congruence.
  - inversion H2; subst; constructor; congruence.
  - inversion H2; subst; constructor; congruence.
Qed.

Lemma Le_fin_inv (x y : Q) : JS.Le (Fin x) (Fin y) -> x <= y.
Proof. by inversion 1. Qed.

Lemma Lt_fin_inv (x y : Q) : JS.Lt (Fin x) (Fin y) -> x < y.
Proof. by inversion 1. Qed.

(** Strictly below excludes above or equal. *)
Lemma Lt_not_Le (a b : number) : JS.Lt a b -> ~ JS.Le b a.
Proof.
  intros H1 H2. destruct H1 as [x y H1 | c H1 H1' | c H1 H1'].
  - apply Le_fin_inv in H2. exact (Qlt_not_le _ _ H1 H2).
  - inversion H2; subst; congruence.
  - inversion H2; subst; congruence.
Qed.

Lemma Lt_Le (a b : number) : JS.Lt a b -> JS.Le a b.
Proof.
  intros [x y H | c H1 H2 | c H1 H2]; constructor; try assumption.
  by apply Qlt_le_weak.
Qed.

(** Nothing lies in an inverted interval. *)
Lemma inverted_empty (s e t : number) : JS.Lt e s -> ~ JS.within s e t.
Proof.
  intros Hinv [H1 H2]. apply (Lt_not_Le _ _ Hinv).
  eapply Le_trans; eassumption.
Qed.

(** The containment test of the components decides [within]. *)
Lemma containment_spec (s e t : number) :
  JS.ge t s && JS.le t e = true <-> JS.within s e t.
Proof.
  unfold JS.ge, JS.within. rewrite andb_true_iff, !le_spec. tauto.
Qed.

Lemma containment_false (s e t : number) :
  JS.ge t s && JS.le t e = false <-> ~ JS.within s e t.
Proof.
  rewrite <- containment_spec. destruct (JS.ge t s && JS.le t e); split;
    congruence.
Qed.

Lemma same_refl (a : number) : a =n= a.
Proof. destruct a; simpl; auto. reflexivity. Qed.

End NumberOrder.

(** ** [Array.prototype.find] *)
Section Find.
Context {A : Type} (p : A -> bool).

Lemma find_first (l : list A) (x : A) :
  List.find p l = Some x <->
  exists i : nat,
    l !! i = Some x /\ p x = true
    /\ forall (j : nat) (y : A), (j < i)%nat -> l !! j = Some y -> p y = false.
Proof.
  induction l as [|a l IH]; simpl.
  - split; [discriminate|]. intros (i & H & _). by destruct i.
  - destruct (p a) eqn:E.
    + split.
      * intros [= <-]. exists 0%nat. repeat split; auto. intros j y Hj. lia.
      * intros (i & Hi & Hp & Hfirst). destruct i as [|i].
        -- simpl in Hi. congruence.
        -- specialize (Hfirst 0%nat a ltac:(lia) eq_refl). congruence.
    + rewrite IH. split.
      * intros (i & Hi & Hp & Hfirst). exists (S i). repeat split; auto.
        intros [|j] y Hj Hy; simpl in Hy.
        -- congruence.
        -- apply (Hfirst j); [lia|done].
      * intros (i & Hi & Hp & Hfirst). destruct i as [|i].
        -- simpl in Hi. congruence.
        -- exists i. repeat split; auto. intros j y Hj Hy.
           apply (Hfirst (S j)); [lia|done].
Qed.

Lemma find_none (l : list A) :
  List.find p l = None <-> forall x, x ∈ l -> p x = false.
Proof.
  induction l as [|a l IH]; simpl.
  - split; [|done]. intros _ x Hx. by apply elem_of_nil in Hx.
  - destruct (p a) eqn:E.
    + split; [discriminate|]. intros H.
      specialize (H a ltac:(left)). congruence.
    + rewrite IH. split.
      * intros H x Hx. apply elem_of_cons in Hx as [->|Hx]; auto.
      * intros H x Hx. apply H. by right.
Qed.

End Find.

(** ** Active-segment resolution *)
Section ActiveSegment.

(** C1.  The active segment is the first segment in document order whose
    closed interval contains the time, and there is none exactly when no
    interval contains it; for A covering 0-5 before B covering 4-9 the
    resolution at 4.5 is A. *)
Theorem getCurrentSegment_first_in_document_order :
  (forall (segments : list Segment.t) (time : number) (segment : Segment.t),
      ProgressBar.getCurrentSegment segments time = Some segment <->
      exists i : nat,
        segments !! i = Some segment
        /\ containsTime time segment
        /\ forall (j : nat) (earlier : Segment.t),
            (j < i)%nat -> segments !! j = Some earlier ->
            ~ containsTime time earlier)
  /\ (forall (segments : list Segment.t) (time : number),
        ProgressBar.getCurrentSegment segments time = None <->
        forall segment, segment ∈ segments -> ~ containsTime time segment)
  /\ (forall idA textA wordsA idB textB wordsB,
        let A := Segment.mk idA textA (Fin 0) (Fin 5) wordsA in
        let B := Segment.mk idB textB (Fin 4) (Fin 9) wordsB in
        containsTime (Fin (9 # 2)) A /\ containsTime (Fin (9 # 2)) B
        /\ ProgressBar.getCurrentSegment [A; B] (Fin (9 # 2)) = Some A).
Proof.
  split; [|split].
  - intros segments time segment. unfold ProgressBar.getCurrentSegment.
    rewrite find_first. unfold containsTime.
    split; intros (i & Hi & Hin & Hfirst); exists i; split; auto; split.
    + by apply containment_spec.
    + intros j earlier Hj Hearlier. apply containment_false. eauto.
    + by apply containment_spec.
    + intros j earlier Hj Hearlier. apply containment_false. eauto.
  - intros segments time. unfold ProgressBar.getCurrentSegment.
    rewrite find_none. unfold containsTime.
    split; intros H segment Hin; apply containment_false; auto.
  - intros. unfold containsTime, JS.within. simpl.
    repeat split; try (constructor; unfold Qle; simpl; lia).
Qed.

End ActiveSegment.

(** ** Inverted intervals *)
Section Inverted.

(** C8.  A segment, word or syllable whose interval is inverted
    ([end < start]) is active at no time: every activation predicate is
    false, so the unit never carries a highlight class, never is the
    current segment, and its word-timing panel is not shown. *)
Theorem inverted_interval_never_active (time : number) :
  (forall word : Word.t,
      JS.Lt (Word.end_ word) (Word.start word) ->
      LyricsDisplay.isWordActive time word = false
      /\ WordTimingDisplay.isWordActive word time = false
      /\ (forall translations,
             LyricsDisplay.renderKaraokeView time translations word
             = Element "span" "word " (Some (Word.start word))
                 (Text (Word.text word)
                  :: LyricsDisplay.renderTranslation translations word)))
  /\ (forall syllable : Syllable.t,
        JS.Lt (Syllable.end_ syllable) (Syllable.start syllable) ->
        LyricsDisplay.isSyllableActive time syllable = false)
  /\ (forall segment : Segment.t,
        JS.Lt (Segment.end_ segment) (Segment.start segment) ->
        LyricsDisplay.isSegmentActive time segment = false
        /\ WordTimingDisplay.isSegmentActive segment time = false
        /\ WordTimingDisplay.render segment time = None
        /\ forall segments,
            ProgressBar.getCurrentSegment segments time <> Some segment).
Proof.
  split; [|split].
  - intros word Hinv.
    assert (H : LyricsDisplay.isWordActive time word = false)
      by (apply containment_false; by apply inverted_empty).
    split; [exact H|]. split; [exact H|].
    intros translations. unfold LyricsDisplay.renderKaraokeView.
    by rewrite H.
  - intros syllable Hinv. apply containment_false. by apply inverted_empty.
  - intros segment Hinv.
    assert (H : WordTimingDisplay.isSegmentActive segment time = false)
      by (apply containment_false; by apply inverted_empty).
    split; [exact H|]. split; [exact H|]. split.
    + unfold WordTimingDisplay.render. by rewrite H.
    + intros segments Hfound. apply find_some in Hfound as [_ Hp].
      unfold WordTimingDisplay.isSegmentActive in H. congruence.
Qed.

(** A word running from 3 back to 1, asked at time 2. *)
Lemma inverted_interval_never_active_witness :
  let word := Word.mk "ters" (Fin 3) (Fin 1) (Fin 1) [] None in
  JS.Lt (Word.end_ word) (Word.start word)
  /\ LyricsDisplay.isWordActive (Fin 2) word = false.
Proof.
  intros word.
  assert (Hinv : JS.Lt (Word.end_ word) (Word.start word))
    by (constructor; reflexivity).
  split; [exact Hinv|].
  exact (proj1 (proj1 (inverted_interval_never_active (Fin 2)) word Hinv)).
Defined.

End Inverted.

(** ** Progress within a unit *)
Section Progress.

Lemma getWordProgress_percentWithin (time : number) (word : Word.t) :
  WordTimingDisplay.getWordProgress time word
  = percentWithin time (Word.start word) (Word.end_ word).
Proof. reflexivity. Qed.

Lemma getSegmentProgress_percentWithin (time : number) (segment : Segment.t) :
  WordTimingDisplay.getSegmentProgress time segment
  = percentWithin time (Segment.start segment) (Segment.end_ segment).
Proof. reflexivity. Qed.

Lemma percentWithin_before (time s e : number) :
  JS.Lt time s -> percentWithin time s e = Fin 0.
Proof.
  intros H. apply lt_spec in H. unfold percentWithin. by rewrite H.
Qed.

Lemma percentWithin_after (time s e : number) :
  JS.Le s e -> JS.Lt e time -> percentWithin time s e = Fin 100.
Proof.
  intros Hle Hlt. unfold percentWithin.
  destruct (JS.lt time s) eqn:E.
  - apply lt_spec, Lt_Le in E. exfalso.
    apply (Lt_not_Le _ _ Hlt). eapply Le_trans; eassumption.
  - apply lt_spec in Hlt. unfold JS.gt. by rewrite Hlt.
Qed.

(** The share of the interval that has elapsed lies between 0 and 1. *)
Lemma elapsed_share_bounds (s e t : Q) :
  s < e -> s <= t -> t <= e ->
  0 <= (t - s) / (e - s) /\ (t - s) / (e - s) <= 1.
Proof.
  intros Hse Hst Hte. assert (Hd : 0 < e - s) by lra. split.
  - apply Qle_shift_div_l; [exact Hd | lra].
  - apply Qle_shift_div_r; [exact Hd | lra].
Qed.

Lemma elapsed_share_mono (s e t1 t2 : Q) :
  s < e -> t1 <= t2 -> (t1 - s) / (e - s) <= (t2 - s) / (e - s).
Proof.
  intros Hse H12. unfold Qdiv. apply Qmult_le_compat_r; [lra|].
  apply Qinv_le_0_compat. lra.
Qed.

(** Inside a proper finite interval no branch clamps: the value is the
    elapsed share, in percent. *)
Lemma percentWithin_inside (s e t : Q) :
  s < e -> s <= t -> t <= e ->
  percentWithin (Fin t) (Fin s) (Fin e) =n= Fin ((t - s) / (e - s) * 100).
Proof.
  intros Hse Hst Hte.
  destruct (elapsed_share_bounds s e t Hse Hst Hte) as [H0 H1].
  unfold percentWithin, JS.gt. simpl.
  replace (JS.Qlt_bool t s) with false; cycle 1.
  { symmetry. apply not_true_is_false. rewrite Qlt_bool_iff. lra. }
  replace (JS.Qlt_bool e t) with false; cycle 1.
  { symmetry. apply not_true_is_false. rewrite Qlt_bool_iff. lra. }
  replace (Qeq_bool (e - s) 0) with false; cycle 1.
  { symmetry. apply not_true_is_false. rewrite Qeq_bool_iff. lra. }
  simpl. set (r := (t - s) / (e - s)) in *.
  destruct (JS.Qlt_bool 0 (r * 100)) eqn:Emax.
  - simpl.
    destruct (JS.Qlt_bool (r * 100) 100) eqn:Emin; simpl; [apply Qeq_refl|].
    apply not_true_iff_false in Emin. rewrite Qlt_bool_iff in Emin. lra.
  - apply not_true_iff_false in Emax. rewrite Qlt_bool_iff in Emax.
    simpl. lra.
Qed.

(** At the single point of a degenerate interval the division is [0 / 0]:
    the value is [NaN], which the clamp lets through. *)
Lemma percentWithin_degenerate_at_start (s : Q) :
  percentWithin (Fin s) (Fin s) (Fin s) = NaN.
Proof.
  unfold percentWithin, JS.gt. simpl.
  replace (JS.Qlt_bool s s) with false; cycle 1.
  { symmetry. apply not_true_is_false. rewrite Qlt_bool_iff. lra. }
  replace (Qeq_bool (s - s) 0) with true; [reflexivity|].
  symmetry. apply Qeq_bool_iff. lra.
Qed.

End Progress.

Section ProgressClaims.

Lemma same_fin_r (a : number) (x y : Q) : a =n= Fin x -> x == y -> a =n= Fin y.
Proof. destruct a; simpl; try tauto. intros H1 H2. by rewrite H1. Qed.

Lemma Le_same_fin (a b : number) (x y : Q) :
  a =n= Fin x -> b =n= Fin y -> x <= y -> JS.Le a b.
Proof.
  destruct a, b; simpl; try tauto. intros Ha Hb Hxy.
  constructor. rewrite Ha, Hb. exact Hxy.
Qed.

(** A time inside a finite interval is finite. *)
Lemma within_finite (s e : Q) (time : number) :
  JS.within (Fin s) (Fin e) time -> exists t : Q, time = Fin t /\ s <= t /\ t <= e.
Proof.
  intros [H1 H2]. destruct time as [t| | |].
  - exists t. split; [reflexivity|]. split; by apply Le_fin_inv.
  - inversion H2.
  - inversion H1.
  - inversion H2.
Qed.

Lemma percentWithin_at_start (s e : Q) :
  s < e -> percentWithin (Fin s) (Fin s) (Fin e) =n= Fin 0.
Proof.
  intros Hse. eapply same_fin_r.
  - apply percentWithin_inside; lra.
  - field. lra.
Qed.

Lemma percentWithin_at_end (s e : Q) :
  s < e -> percentWithin (Fin e) (Fin s) (Fin e) =n= Fin 100.
Proof.
  intros Hse. eapply same_fin_r.
  - apply percentWithin_inside; lra.
  - field. lra.
Qed.

Lemma percentWithin_mono (s e : Q) (time1 time2 : number) :
  s < e ->
  JS.Le (Fin s) time1 -> JS.Le time1 time2 -> JS.Le time2 (Fin e) ->
  JS.Le (percentWithin time1 (Fin s) (Fin e))
        (percentWithin time2 (Fin s) (Fin e)).
Proof.
  intros Hse H1 H12 H2.
  destruct (within_finite s e time1) as (t1 & -> & _ & _);
    [split; [exact H1 | eapply Le_trans; eassumption]|].
  destruct (within_finite s e time2) as (t2 & -> & _ & _);
    [split; [eapply Le_trans; eassumption | exact H2]|].
  apply Le_fin_inv in H1, H12, H2.
  eapply Le_same_fin.
  - apply percentWithin_inside; lra.
  - apply percentWithin_inside; lra.
  - assert (H := elapsed_share_mono s e t1 t2 Hse H12).
    set (r1 := (t1 - s) / (e - s)) in *. set (r2 := (t2 - s) / (e - s)) in *.
    lra.
Qed.

(** C2, as the code has it.  For a word with [start <= end] the progress is
    a percentage: [0] before the start, [100] after the end (so also at
    every time after the single point of a degenerate word), and inside a
    proper interval [(time - start) / (end - start)] times [100]. *)
Theorem getWordProgress_percentage (word : Word.t) (time : number) :
  JS.Le (Word.start word) (Word.end_ word) ->
  (JS.Lt time (Word.start word) ->
   WordTimingDisplay.getWordProgress time word = Fin 0)
  /\ (JS.Lt (Word.end_ word) time ->
      WordTimingDisplay.getWordProgress time word = Fin 100)
  /\ (forall s e t : Q,
         Word.start word = Fin s -> Word.end_ word = Fin e -> time = Fin t ->
         s < e -> s <= t -> t <= e ->
         WordTimingDisplay.getWordProgress time word
         =n= Fin ((t - s) / (e - s) * 100)).
Proof.
  intros Hle. rewrite getWordProgress_percentWithin. split; [|split].
  - apply percentWithin_before.
  - by apply percentWithin_after.
  - intros s e t -> -> -> Hse Hst Hte. by apply percentWithin_inside.
Qed.

(** The word "Sample" of the placeholder document, 0.5-1.5, at 1.2. *)
Lemma getWordProgress_percentage_witness :
  let word := Word.mk "Sample" (Fin (1 # 2)) (Fin (3 # 2)) (Fin (8 # 10)) [] None in
  JS.Le (Word.start word) (Word.end_ word)
  /\ WordTimingDisplay.getWordProgress (Fin (6 # 5)) word
     =n= Fin (((6 # 5) - (1 # 2)) / ((3 # 2) - (1 # 2)) * 100).
Proof.
  intros word.
  assert (Hle : JS.Le (Word.start word) (Word.end_ word))
    by (constructor; unfold Qle; simpl; lia).
  split; [exact Hle|].
  apply (proj2 (proj2 (getWordProgress_percentage word (Fin (6 # 5)) Hle))
           (1 # 2) (3 # 2) (6 # 5));
    try reflexivity; unfold Qle; simpl; lia.
Defined.

(** C2 as stated does not hold: after the end of the word 0-1 the value is
    100, not 1. *)
Lemma getWordProgress_after_end_not_1 :
  let word := Word.mk "la" (Fin 0) (Fin 1) (Fin 1) [] None in
  JS.Le (Word.start word) (Word.end_ word)
  /\ JS.Lt (Word.end_ word) (Fin 2)
  /\ WordTimingDisplay.getWordProgress (Fin 2) word = Fin 100
  /\ ~ (WordTimingDisplay.getWordProgress (Fin 2) word =n= Fin 1).
Proof.
  intros word. split; [|split; [|split]].
  - constructor. unfold Qle. simpl. lia.
  - constructor. reflexivity.
  - reflexivity.
  - simpl. unfold Qeq. simpl. lia.
Qed.

(** C3, as the code has it.  Over a proper interval the progress of a word
    and of a segment does not decrease with the time inside the interval,
    is [0] at the start and [100] at the end. *)
Theorem progress_monotone_within_interval (s e : Q) :
  s < e ->
  (forall word : Word.t,
      Word.start word = Fin s -> Word.end_ word = Fin e ->
      (forall time1 time2 : number,
          JS.Le (Fin s) time1 -> JS.Le time1 time2 -> JS.Le time2 (Fin e) ->
          JS.Le (WordTimingDisplay.getWordProgress time1 word)
                (WordTimingDisplay.getWordProgress time2 word))
      /\ WordTimingDisplay.getWordProgress (Fin s) word =n= Fin 0
      /\ WordTimingDisplay.getWordProgress (Fin e) word =n= Fin 100)
  /\ (forall segment : Segment.t,
        Segment.start segment = Fin s -> Segment.end_ segment = Fin e ->
        (forall time1 time2 : number,
            JS.Le (Fin s) time1 -> JS.Le time1 time2 -> JS.Le time2 (Fin e) ->
            JS.Le (WordTimingDisplay.getSegmentProgress time1 segment)
                  (WordTimingDisplay.getSegmentProgress time2 segment))
        /\ WordTimingDisplay.getSegmentProgress (Fin s) segment =n= Fin 0
        /\ WordTimingDisplay.getSegmentProgress (Fin e) segment =n= Fin 100).
Proof.
  intros Hse. split.
  - intros word Hs He. split; [|split].
    + intros time1 time2 H1 H12 H2.
      rewrite !getWordProgress_percentWithin, Hs, He.
      by apply percentWithin_mono.
    + rewrite getWordProgress_percentWithin, Hs, He.
      by apply percentWithin_at_start.
    + rewrite getWordProgress_percentWithin, Hs, He.
      by apply percentWithin_at_end.
  - intros segment Hs He. split; [|split].
    + intros time1 time2 H1 H12 H2.
      rewrite !getSegmentProgress_percentWithin, Hs, He.
      by apply percentWithin_mono.
    + rewrite getSegmentProgress_percentWithin, Hs, He.
      by apply percentWithin_at_start.
    + rewrite getSegmentProgress_percentWithin, Hs, He.
      by apply percentWithin_at_end.
Qed.

(** The segment 0.5-4 of the placeholder document, at its end. *)
Lemma progress_monotone_within_interval_witness :
  let segment := Segment.mk "seg_001" "Sample Turkish text" (Fin (1 # 2)) (Fin 4) [] in
  (1 # 2) < 4
  /\ WordTimingDisplay.getSegmentProgress (Fin 4) segment =n= Fin 100.
Proof.
  intros segment.
  assert (H : (1 # 2) < 4) by reflexivity.
  split; [exact H|].
  exact (proj2 (proj2
    (proj2 (progress_monotone_within_interval (1 # 2) 4 H)
       segment eq_refl eq_refl))).
Defined.

(** C3 as stated does not hold: at the end of the word 0-1 the value is
    100, not 1. *)
Lemma getWordProgress_at_end_not_1 :
  let word := Word.mk "la" (Fin 0) (Fin 1) (Fin 1) [] None in
  JS.Lt (Word.start word) (Word.end_ word)
  /\ WordTimingDisplay.getWordProgress (Word.end_ word) word =n= Fin 100
  /\ ~ (WordTimingDisplay.getWordProgress (Word.end_ word) word =n= Fin 1).
Proof.
  intros word. split; [|split].
  - constructor. reflexivity.
  - reflexivity.
  - simpl. unfold Qeq. simpl. lia.
Qed.

End ProgressClaims.

(** ** Seeking *)
Section Seek.

Lemma handleSeek_currentTime (time : number) (st : App.state) :
  App.currentTime (App.handleSeek time st).1 = time.
Proof.
  unfold App.handleSeek. simpl.
  destruct (App.audioPlayerRef st) as [player|]; [|reflexivity].
  by destruct (AudioPlayer.seekToTime time player).
Qed.

Lemma handleSeek_frame (time : number) (st : App.state) :
  App.lyricsData (App.handleSeek time st).1 = App.lyricsData st
  /\ App.viewMode (App.handleSeek time st).1 = App.viewMode st
  /\ App.showTranslations (App.handleSeek time st).1 = App.showTranslations st.
Proof.
  unfold App.handleSeek. simpl.
  destruct (App.audioPlayerRef st) as [player|]; [|done].
  by destruct (AudioPlayer.seekToTime time player).
Qed.

(** C4.  Right after the seek handler has run, and before any engine
    event, the current time held by the application is the target of the
    seek, whatever the player did with it; what a render then resolves
    (current segment, lyric lines with their active words and syllables,
    word-timing panels) is what the target time resolves to.  The same
    holds for a click on the progress bar and for a drag of the player's
    range input. *)
Theorem seek_sets_current_time_at_once (time : number) (st : App.state) :
  App.currentTime (App.handleSeek time st).1 = time
  /\ App.render (App.handleSeek time st).1
     = App.resolve (Document.segments (App.lyricsData st)) (App.viewMode st)
         (App.showTranslations st) time
  /\ App.currentTime (App.onProgressBarSeek time st) = time
  /\ App.render (App.onProgressBarSeek time st)
     = App.resolve (Document.segments (App.lyricsData st)) (App.viewMode st)
         (App.showTranslations st) time
  /\ (forall player audio,
         App.audioPlayerRef st = Some player ->
         AudioPlayer.audioRef player = Some audio ->
         HTMLAudioElement.isFinite time = true ->
         App.currentTime (App.onPlayerSeek time st).1 = time).
Proof.
  split; [apply handleSeek_currentTime|]. split.
  - unfold App.render. rewrite handleSeek_currentTime.
    by destruct (handleSeek_frame time st) as (-> & -> & ->).
  - split; [reflexivity|]. split; [reflexivity|].
    intros player audio Hplayer Haudio Hfinite.
    unfold App.onPlayerSeek, AudioPlayer.handleSeek,
      HTMLAudioElement.set_currentTime.
    rewrite Hplayer, Haudio, Hfinite. apply handleSeek_currentTime.
Qed.

(** A seek to 4.5 over the overlapping segments 0-5 and 4-9, with no
    player mounted: the render that follows already marks the first. *)
Lemma seek_sets_current_time_at_once_witness :
  let A := Segment.mk "a" "A" (Fin 0) (Fin 5) [] in
  let B := Segment.mk "b" "B" (Fin 4) (Fin 9) [] in
  let st :=
    App.mk (Fin 0) (Fin 0) LyricsDisplay.karaoke true
      (Document.mk (Document.metadata App.sampleLyricsData) [A; B])
      App.lyrics None in
  App.currentSegment (App.render (App.handleSeek (Fin (9 # 2)) st).1) = Some A.
Proof.
  intros A B st.
  rewrite (proj1 (proj2 (seek_sets_current_time_at_once (Fin (9 # 2)) st))).
  reflexivity.
Defined.

End Seek.

(** ** Playback rate *)
Section Rate.

(** Without an element the handler returns at once. *)
Lemma handleSpeedChange_unmounted (supportsRate : Q -> bool) (value : string)
    (st : AudioPlayer.state) :
  AudioPlayer.audioRef st = None ->
  AudioPlayer.handleSpeedChange supportsRate value st = (st, RateNormal).
Proof. intros H. unfold AudioPlayer.handleSpeedChange. by rewrite H. Qed.

(** C5, as the code has it.  The handler does not compare the value with
    the six offered speeds: what is refused is refused by the element.
    When the value parses to a finite number [p] and the user agent
    supports the rate [p / 100], the playback rate becomes [p / 100],
    pitch is preserved and the speed state is [p], whether or not the
    rate is one of the six.  A rate the user agent does not support is
    refused with a [NotSupportedError], and a value whose parse is not
    finite ([NaN], or an infinity for a long run of digits) with a
    [TypeError]; the element is then as it was, while the speed state
    holds the parsed value.  The six options parse to 50, 60, 70, 80, 90
    and 100. *)
Theorem handleSpeedChange_leaves_refusal_to_element (supportsRate : Q -> bool)
    (value : string) (st : AudioPlayer.state) (audio : HTMLAudioElement.t) :
  AudioPlayer.audioRef st = Some audio ->
  (forall p : Q,
      JSString.parseInt value = Fin p -> supportsRate (p / 100) = true ->
      HTMLAudioElement.playbackRate
        <$> AudioPlayer.audioRef
              (AudioPlayer.handleSpeedChange supportsRate value st).1
      = Some (Fin (p / 100))
      /\ HTMLAudioElement.preservesPitch
           <$> AudioPlayer.audioRef
                 (AudioPlayer.handleSpeedChange supportsRate value st).1
         = Some true
      /\ AudioPlayer.playbackSpeed
           (AudioPlayer.handleSpeedChange supportsRate value st).1
         = Fin p
      /\ (AudioPlayer.handleSpeedChange supportsRate value st).2 = RateNormal)
  /\ (forall p : Q,
         JSString.parseInt value = Fin p -> supportsRate (p / 100) = false ->
         AudioPlayer.audioRef
           (AudioPlayer.handleSpeedChange supportsRate value st).1
         = Some audio
         /\ AudioPlayer.playbackSpeed
              (AudioPlayer.handleSpeedChange supportsRate value st).1
            = Fin p
         /\ (AudioPlayer.handleSpeedChange supportsRate value st).2
            = RateNotSupportedError)
  /\ (HTMLAudioElement.isFinite (JSString.parseInt value) = false ->
      AudioPlayer.audioRef
        (AudioPlayer.handleSpeedChange supportsRate value st).1
      = Some audio
      /\ AudioPlayer.playbackSpeed
           (AudioPlayer.handleSpeedChange supportsRate value st).1
         = JSString.parseInt value
      /\ (AudioPlayer.handleSpeedChange supportsRate value st).2
         = RateTypeError)
  /\ List.map JSString.parseInt AudioPlayer.speedOptions
     = [Fin 50; Fin 60; Fin 70; Fin 80; Fin 90; Fin 100].
Proof.
  intros Haudio. split; [|split; [|split]].
  - intros p Hp Hrate. unfold AudioPlayer.handleSpeedChange.
    rewrite Haudio, Hp. simpl. rewrite Hrate. simpl. auto.
  - intros p Hp Hrate. unfold AudioPlayer.handleSpeedChange.
    rewrite Haudio, Hp. simpl. rewrite Hrate. simpl. auto.
  - intros Hparse. unfold AudioPlayer.handleSpeedChange. rewrite Haudio.
    destruct (JSString.parseInt value) as [p| | |]; [discriminate| | |];
      simpl; auto.
  - reflexivity.
Qed.

(** The option "70" on a player at normal speed; the value "2000", which
    asks for twenty times the speed, is refused by the element. *)
Lemma handleSpeedChange_leaves_refusal_to_element_witness :
  let audio := HTMLAudioElement.mk (Fin 0) (Fin 147) (Fin 1) false true in
  let st := AudioPlayer.mk (Some audio) false (Fin 0) (Fin 147) (Fin 100) in
  HTMLAudioElement.playbackRate
    <$> AudioPlayer.audioRef
          (AudioPlayer.handleSpeedChange ratesUpToSixteen "70" st).1
  = Some (Fin (70 / 100))
  /\ (AudioPlayer.handleSpeedChange ratesUpToSixteen "2000" st).2
     = RateNotSupportedError
  /\ (AudioPlayer.handleSpeedChange ratesUpToSixteen "fast" st).2
     = RateTypeError.
Proof.
  intros audio st. split; [|split].
  - exact (proj1 (proj1
      (handleSpeedChange_leaves_refusal_to_element ratesUpToSixteen "70" st
         audio eq_refl) 70 eq_refl eq_refl)).
  - exact (proj2 (proj2 (proj1 (proj2
      (handleSpeedChange_leaves_refusal_to_element ratesUpToSixteen "2000" st
         audio eq_refl)) 2000 eq_refl eq_refl))).
  - exact (proj2 (proj2 (proj1 (proj2 (proj2
      (handleSpeedChange_leaves_refusal_to_element ratesUpToSixteen "fast" st
         audio eq_refl))) eq_refl))).
Defined.

(** C5 as stated does not hold: the value 200, outside the offered set, is
    applied on a user agent that supports the double speed, and the rate
    goes from 1 to 2. *)
Lemma handleSpeedChange_applies_200 :
  let audio := HTMLAudioElement.mk (Fin 0) (Fin 147) (Fin 1) false true in
  let st := AudioPlayer.mk (Some audio) false (Fin 0) (Fin 147) (Fin 100) in
  ~ In "200" AudioPlayer.speedOptions
  /\ (AudioPlayer.handleSpeedChange ratesUpToSixteen "200" st).2 = RateNormal
  /\ exists audio',
      AudioPlayer.audioRef
        (AudioPlayer.handleSpeedChange ratesUpToSixteen "200" st).1
      = Some audio'
      /\ HTMLAudioElement.playbackRate audio' =n= Fin 2
      /\ ~ (HTMLAudioElement.playbackRate audio'
            =n= HTMLAudioElement.playbackRate audio).
Proof.
  intros audio st. split; [|split].
  - simpl. intros H. repeat destruct H as [H|H]; try discriminate. exact H.
  - reflexivity.
  - eexists. split; [reflexivity|]. split.
    + reflexivity.
    + simpl. unfold Qeq. simpl. lia.
Qed.

End Rate.

(** ** Loading the lyrics document *)
Section Load.

Variable fetch : string -> settled Response.t.

Lemma loadAlignedData_primary (document : Document.t) :
  loads fetch App.primaryResource = Fulfilled document ->
  App.loadAlignedData fetch = Fulfilled document.
Proof.
  unfold loads, App.loadAlignedData. intros H. by rewrite H.
Qed.

Lemma loadAlignedData_fallback (error : string) (document : Document.t) :
  loads fetch App.primaryResource = Rejected error ->
  loads fetch App.fallbackResource = Fulfilled document ->
  App.loadAlignedData fetch = Fulfilled document.
Proof.
  unfold loads, App.loadAlignedData. intros H1 H2. by rewrite H1, H2.
Qed.

Lemma loadAlignedData_placeholder (error error2 : string) :
  loads fetch App.primaryResource = Rejected error ->
  loads fetch App.fallbackResource = Rejected error2 ->
  App.loadAlignedData fetch = Fulfilled App.sampleLyricsData.
Proof.
  unfold loads, App.loadAlignedData. intros H1 H2. by rewrite H1, H2.
Qed.

(** The load settles on one of three documents and never rejects. *)
Lemma loadAlignedData_cases :
  App.loadAlignedData fetch = loads fetch App.primaryResource
  \/ App.loadAlignedData fetch = loads fetch App.fallbackResource
  \/ App.loadAlignedData fetch = Fulfilled App.sampleLyricsData.
Proof.
  destruct (loads fetch App.primaryResource) as [d|err] eqn:E1.
  - left. by apply loadAlignedData_primary.
  - destruct (loads fetch App.fallbackResource) as [d|err2] eqn:E2.
    + right; left. by eapply loadAlignedData_fallback.
    + right; right. by eapply loadAlignedData_placeholder.
Qed.

Lemma loadAlignedData_fulfilled :
  exists document, App.loadAlignedData fetch = Fulfilled document.
Proof.
  destruct (loads fetch App.primaryResource) as [d|err] eqn:E1.
  - exists d. by apply loadAlignedData_primary.
  - destruct (loads fetch App.fallbackResource) as [d|err2] eqn:E2.
    + exists d. by eapply loadAlignedData_fallback.
    + exists App.sampleLyricsData. by eapply loadAlignedData_placeholder.
Qed.

End Load.

(** C6, as the code has it.  The load never rejects: it yields the primary
    resource's document when that loads, else the fallback's when that
    loads, else the built-in placeholder, which has a segment.  The
    document of a resource is passed on as fetched, so the result is
    non-empty whenever the documents the resources hold are. *)
Theorem loadAlignedData_fallback_chain (fetch : string -> settled Response.t) :
  (exists document, App.loadAlignedData fetch = Fulfilled document)
  /\ (forall document,
         loads fetch App.primaryResource = Fulfilled document ->
         App.loadAlignedData fetch = Fulfilled document)
  /\ (forall error document,
         loads fetch App.primaryResource = Rejected error ->
         loads fetch App.fallbackResource = Fulfilled document ->
         App.loadAlignedData fetch = Fulfilled document)
  /\ (forall error error2,
         loads fetch App.primaryResource = Rejected error ->
         loads fetch App.fallbackResource = Rejected error2 ->
         App.loadAlignedData fetch = Fulfilled App.sampleLyricsData)
  /\ nonEmpty App.sampleLyricsData
  /\ ((forall url document,
          loads fetch url = Fulfilled document -> nonEmpty document) ->
      forall document,
        App.loadAlignedData fetch = Fulfilled document -> nonEmpty document).
Proof.
  split; [apply loadAlignedData_fulfilled|].
  split; [apply loadAlignedData_primary|].
  split; [apply loadAlignedData_fallback|].
  split; [apply loadAlignedData_placeholder|].
  split; [discriminate|].
  intros Hresources document Hload.
  destruct (loadAlignedData_cases fetch) as [H|[H|H]]; rewrite H in Hload.
  - eapply Hresources; eassumption.
  - eapply Hresources; eassumption.
  - injection Hload as <-. discriminate.
Qed.

(** Both requests fail at the network: the placeholder is shown. *)
Lemma loadAlignedData_fallback_chain_witness :
  let fetch := fun _ : string => @Rejected Response.t "Failed to fetch" in
  App.loadAlignedData fetch = Fulfilled App.sampleLyricsData.
Proof.
  intros fetch.
  exact (proj1 (proj2 (proj2 (proj2 (loadAlignedData_fallback_chain fetch))))
           "Failed to fetch" "Failed to fetch" eq_refl eq_refl).
Defined.

(** C6 as stated does not hold: when the primary resource answers with a
    document without segments, that document is the result. *)
Lemma loadAlignedData_empty_document :
  let empty := Document.mk (Document.metadata App.sampleLyricsData) [] in
  let fetch := fun _ : string => Fulfilled (Response.mk true (Fulfilled empty)) in
  App.loadAlignedData fetch = Fulfilled empty
  /\ ~ nonEmpty empty
  /\ Document.segments (App.lyricsData (App.onLoaded (App.loadAlignedData fetch) App.initial))
     = [].
Proof.
  intros empty fetch. split; [reflexivity|]. split.
  - intros H. by apply H.
  - reflexivity.
Qed.

(** ** The syllable view *)
Section SyllableView.

Lemma append_empty_r (s : string) : s +:+ "" = s.
Proof.
  unfold String.app. induction s as [|c s IH]; simpl; [reflexivity|].
  by f_equal.
Qed.

(** The translation suffix shown after a word, if any. *)
Lemma textContent_renderTranslation (translations : bool) (word : Word.t) :
  List.fold_right (fun child acc => textContent child +:+ acc) ""
    (LyricsDisplay.renderTranslation translations word)
  = match (if translations then Word.translation word else None) with
    | Some translation => "(" +:+ Translation.literal translation +:+ ")"
    | None => ""
    end.
Proof.
  unfold LyricsDisplay.renderTranslation.
  destruct translations; [|reflexivity].
  destruct (Word.translation word) as [translation|]; [|reflexivity].
  cbn [List.fold_right textContent].
  by rewrite !append_empty_r.
Qed.

(** C7, as the code has it.  For a word without syllables the syllable
    view does not throw: it renders the word's element, clickable and with
    its activation class, but with no syllable inside, so the text of the
    word is not displayed; the element holds the translation suffix alone,
    when translations are shown and the word has one. *)
Theorem renderSyllableView_without_syllables (time : number)
    (translations : bool) (word : Word.t) :
  Word.syllables word = [] ->
  LyricsDisplay.renderSyllableView time translations word
  = Element "span"
      ("word " +:+ (if LyricsDisplay.isWordActive time word then "active" else ""))
      (Some (Word.start word))
      (LyricsDisplay.renderTranslation translations word)
  /\ textContent (LyricsDisplay.renderSyllableView time translations word)
     = match (if translations then Word.translation word else None) with
       | Some translation => "(" +:+ Translation.literal translation +:+ ")"
       | None => ""
       end.
Proof.
  intros Hnone.
  assert (Hview :
    LyricsDisplay.renderSyllableView time translations word
    = Element "span"
        ("word " +:+ (if LyricsDisplay.isWordActive time word then "active" else ""))
        (Some (Word.start word))
        (LyricsDisplay.renderTranslation translations word)).
  { unfold LyricsDisplay.renderSyllableView. by rewrite Hnone. }
  split; [exact Hview|].
  rewrite Hview. cbn [textContent]. apply textContent_renderTranslation.
Qed.

(** The word "Sample" stripped of its syllables, translations shown. *)
Lemma renderSyllableView_without_syllables_witness :
  let word :=
    Word.mk "Sample" (Fin (1 # 2)) (Fin (3 # 2)) (Fin (8 # 10)) []
      (Some (Translation.mk "example" None)) in
  textContent (LyricsDisplay.renderSyllableView (Fin (6 # 5)) true word)
  = "(example)".
Proof.
  intros word.
  exact (proj2 (renderSyllableView_without_syllables (Fin (6 # 5)) true word
                  eq_refl)).
Defined.

(** C7 as stated does not hold: the word "Sample" without syllables is
    rendered as an empty element in the syllable view, while the karaoke
    view of the same word shows its text. *)
Lemma renderSyllableView_drops_word_text :
  let word := Word.mk "Sample" (Fin (1 # 2)) (Fin (3 # 2)) (Fin (8 # 10)) [] None in
  Word.syllables word = []
  /\ LyricsDisplay.renderSyllableView (Fin (6 # 5)) false word
     = Element "span" "word active" (Some (Fin (1 # 2))) []
  /\ textContent (LyricsDisplay.renderSyllableView (Fin (6 # 5)) false word) = ""
  /\ includes
       (textContent (LyricsDisplay.renderSyllableView (Fin (6 # 5)) false word))
       (Word.text word) = false
  /\ includes
       (textContent (LyricsDisplay.renderKaraokeView (Fin (6 # 5)) false word))
       (Word.text word) = true.
Proof. intros word. repeat split. Qed.

End SyllableView.

(** ** The song library *)
Section Library.

Variable JSON_stringify : list Song.t -> string.

Lemma map_lookup {A B : Type} (f : A -> B) (l : list A) (i : nat) :
  List.map f l !! i = f <$> l !! i.
Proof.
  revert i. induction l as [|a l IH]; intros [|i]; simpl; auto.
Qed.

Lemma updated_other (songId : string) (updates : PartialSong.t) (now : string)
    (song : Song.t) :
  Song.id song <> songId -> SongManager.updated songId updates now song = song.
Proof.
  intros H. unfold SongManager.updated. by rewrite bool_decide_eq_false_2.
Qed.

Lemma updated_target (songId : string) (updates : PartialSong.t) (now : string)
    (song : Song.t) :
  Song.id song = songId ->
  SongManager.updated songId updates now song
  = SongManager.setUpdatedAt now (SongManager.spread song updates).
Proof.
  intros H. unfold SongManager.updated. by rewrite bool_decide_eq_true_2.
Qed.

Lemma saveSongs_storage (updatedSongs : list Song.t) (st : SongManager.state) :
  SongManager.songs (SongManager.saveSongs JSON_stringify updatedSongs st)
  = updatedSongs
  /\ SongManager.localStorage (SongManager.saveSongs JSON_stringify updatedSongs st)
       !! "karaokeSongLibrary"
     = Some (JSON_stringify updatedSongs)
  /\ forall key : string,
      key <> "karaokeSongLibrary" ->
      SongManager.localStorage (SongManager.saveSongs JSON_stringify updatedSongs st)
        !! key
      = SongManager.localStorage st !! key.
Proof.
  split; [reflexivity|]. split.
  - simpl. apply lookup_insert_eq.
  - intros key Hkey. simpl. apply lookup_insert_ne.
    unfold SongManager.storageKey. congruence.
Qed.

End Library.

(** C9, at an input where the code departs from it.  The library holds the
    songs [a] and [b], and Retry is clicked on [a]: the pipeline of that
    render marks [a] as downloading, gets no metadata, and waits for the
    download.  Meanwhile the user saves an edit of the title of [b].
    When the download is answered, [downloadAudio], which belongs to the
    render of the click, maps its update of [a] over the songs of that
    render: [b], whose id is not the target's, is written back as it was
    before the edit, in the state and under the storage key. *)
Theorem updateSong_reverts_edit_made_since_render :
  let stringify := fun songs : list Song.t =>
    String.concat ";"
      (List.map (fun song => Song.id song +:+ "=" +:+ Song.title song) songs) in
  let song := fun (id title : string) (status : Status.t) =>
    Song.mk id "https://youtu.be/Q3cj3lVCxr0" title "Semicenk" "tr" status
      None None LyricsStatus.verified [] "la la" true None None None None None
      "2025-01-01T00:00:00.000Z" "2025-01-01T00:00:00.000Z" None in
  let a := song "a" "Yana Yana" Status.error in
  let b := song "b" "Ela" Status.ready in
  let clockAt := fun _ : SongManager.site => "2025-06-01T00:00:00.000Z" in
  let st0 := SongManager.mk [a; b] "" None false ∅ [] in
  let st1 :=
    SongManager.extractMetadata stringify [a; b] clockAt a
      (Fulfilled (ApiResponse.mk false (Rejected "not read"))) st0 in
  let modal :=
    SongManager.mk (SongManager.songs st1) ""
      (Some (song "b" "Ela (live)" Status.ready)) true
      (SongManager.localStorage st1) [] in
  let st2 := SongManager.saveEditedSong stringify "2025-06-01T00:00:05.000Z" modal in
  let st3 :=
    (SongManager.downloadAudio stringify [a; b] clockAt a
       (Fulfilled
          (ApiResponse.mk true
             (Fulfilled (DownloadResult.mk (Some "/data/raw/a.mp3")))))
       st2).1 in
  Song.title <$> SongManager.songs st2 !! 1%nat = Some "Ela (live)"
  /\ SongManager.localStorage st2 !! "karaokeSongLibrary"
     = Some "a=Yana Yana;b=Ela (live)"
  /\ Song.status <$> SongManager.songs st3 !! 0%nat = Some Status.downloaded
  /\ SongManager.songs st3 !! 1%nat = Some b
  /\ SongManager.localStorage st3 !! "karaokeSongLibrary"
     = Some "a=Yana Yana;b=Ela".
Proof.
  intros stringify song a b clockAt st0 st1 modal st2 st3.
  split; [reflexivity|]. split; [apply lookup_insert_eq|].
  split; [reflexivity|]. split; [reflexivity|]. apply lookup_insert_eq.
Qed.

(** ** Adding a song *)
Section AddSong.

Variable JSON_stringify : list Song.t -> string.

Lemma trimStart_blank (s : string) : blank s -> JSString.trimStart s = "".
Proof.
  induction s as [|c s IH]; simpl; [reflexivity|].
  intros [Hc Hs]. rewrite Hc. by apply IH.
Qed.

Lemma trim_blank (s : string) : blank s -> JSString.trim s = "".
Proof. intros H. unfold JSString.trim. by rewrite trimStart_blank. Qed.

Lemma alert_frame (message : string) (st : SongManager.state) :
  SongManager.songs (SongManager.alert message st) = SongManager.songs st
  /\ SongManager.localStorage (SongManager.alert message st)
     = SongManager.localStorage st.
Proof. by split. Qed.

(** C10.  When no video id can be extracted from the URL typed in, or the
    URL is blank, adding a song leaves the collection and the persisted
    library as they were. *)
Theorem addNewSong_without_video_id (now : SongManager.clock)
    (st : SongManager.state) :
  SongManager.extractVideoId (SongManager.newYoutubeUrl st) = None
  \/ blank (SongManager.newYoutubeUrl st) ->
  SongManager.songs (SongManager.addNewSong JSON_stringify now st)
  = SongManager.songs st
  /\ SongManager.localStorage (SongManager.addNewSong JSON_stringify now st)
     = SongManager.localStorage st.
Proof.
  intros H. unfold SongManager.addNewSong.
  destruct (JSString.truthy (JSString.trim (SongManager.newYoutubeUrl st)))
    eqn:Etrim; simpl; [|by split].
  destruct H as [Hnone | Hblank].
  - rewrite Hnone. apply alert_frame.
  - rewrite (trim_blank _ Hblank) in Etrim. discriminate.
Qed.

End AddSong.

(** A URL of another site, and a URL of spaces. *)
Lemma addNewSong_without_video_id_witness :
  let stringify := fun songs : list Song.t => String.concat "," (List.map Song.id songs) in
  let now := SongManager.mk_clock 1700000000000 "2023-11-14T22:13:20.000Z" in
  let st := fun url : string => SongManager.mk [] url None false ∅ [] in
  SongManager.songs
    (SongManager.addNewSong stringify now (st "https://vimeo.com/76979871")) = []
  /\ SongManager.songs (SongManager.addNewSong stringify now (st "   ")) = [].
Proof.
  intros stringify now st. split.
  - apply (addNewSong_without_video_id stringify now
             (st "https://vimeo.com/76979871")).
    left. reflexivity.
  - apply (addNewSong_without_video_id stringify now (st "   ")).
    right. simpl. auto.
Defined.

(** With a usable URL the record is saved first, and the status update
    that follows at once writes back the collection of the render the
    handler belongs to: the input is cleared and an entry is persisted. *)
Lemma addNewSong_with_video_id_example :
  let stringify := fun songs : list Song.t => String.concat "," (List.map Song.id songs) in
  let now := SongManager.mk_clock 1700000000000 "2023-11-14T22:13:20.000Z" in
  let st := SongManager.mk [] "https://youtu.be/Q3cj3lVCxr0" None false ∅ [] in
  SongManager.extractVideoId (SongManager.newYoutubeUrl st) = Some "Q3cj3lVCxr0"
  /\ SongManager.newYoutubeUrl (SongManager.addNewSong stringify now st) = ""
  /\ is_Some (SongManager.localStorage (SongManager.addNewSong stringify now st)
              !! "karaokeSongLibrary")
  /\ SongManager.alerts (SongManager.addNewSong stringify now st) = [].
Proof.
  intros stringify now st. split; [reflexivity|]. split; [reflexivity|].
  split; [|reflexivity]. eexists. apply lookup_insert_eq.
Qed.

(** * Further properties of the components *)

(** ** The video id of a URL *)
Section VideoId.

Lemma append_String (c : ascii) (s t : string) :
  String c s +:+ t = String c (s +:+ t).
Proof. reflexivity. Qed.

Lemma append_empty_l (s : string) : "" +:+ s = s.
Proof. reflexivity. Qed.

Lemma append_assoc (s t u : string) : (s +:+ t) +:+ u = s +:+ (t +:+ u).
Proof.
  induction s as [|c s IH]; [reflexivity|].
  rewrite !append_String. by f_equal.
Qed.

Lemma prefix_split (a s : string) :
  String.prefix a s = true ->
  s = a +:+ SongManager.dropChars (String.length a) s.
Proof.
  revert s. induction a as [|c a IH]; intros s H; [reflexivity|].
  destruct s as [|d s]; simpl in H; [discriminate|].
  destruct (ascii_dec c d) as [->|Hne]; [|discriminate].
  rewrite append_String. simpl. f_equal. by apply IH.
Qed.

Lemma dropChars_append (a s : string) :
  SongManager.dropChars (String.length a) (a +:+ s) = s.
Proof. induction a as [|c a IH]; [by destruct s|]. exact IH. Qed.

Lemma takeWhile_every (p : ascii -> bool) (s : string) :
  everyChar p (SongManager.takeWhile p s).
Proof.
  induction s as [|c s IH]; simpl; [exact I|].
  destruct (p c) eqn:E; simpl; auto.
Qed.

Lemma takeWhile_split (s : string) :
  exists rest,
    s = SongManager.takeWhile SongManager.inClass s +:+ rest /\ endsGroup rest.
Proof.
  induction s as [|c s (rest & IH & Hrest)]; simpl.
  - by exists "".
  - destruct (SongManager.inClass c) eqn:E.
    + exists rest. split; [|exact Hrest]. rewrite append_String. by f_equal.
    + exists (String c s). split; [reflexivity|exact E].
Qed.

Lemma takeWhile_group (id rest : string) :
  everyChar SongManager.inClass id -> endsGroup rest ->
  SongManager.takeWhile SongManager.inClass (id +:+ rest) = id.
Proof.
  intros Hid Hrest. induction id as [|c id IH].
  - rewrite append_empty_l. destruct rest as [|d rest]; [reflexivity|].
    simpl in *. by rewrite Hrest.
  - destruct Hid as [Hc Hid]. rewrite append_String. simpl. rewrite Hc.
    f_equal. by apply IH.
Qed.

Lemma truthy_nonempty (s : string) : JSString.truthy s = true <-> s <> "".
Proof. destruct s; simpl; split; congruence. Qed.

(** What one alternative captures. *)
Lemma matchAlternative_sound (s alt id : string) :
  SongManager.matchAlternative s alt = Some id ->
  id <> "" /\ everyChar SongManager.inClass id
  /\ exists post, s = alt +:+ id +:+ post /\ endsGroup post.
Proof.
  unfold SongManager.matchAlternative.
  destruct (String.prefix alt s) eqn:Hprefix; [|discriminate].
  destruct (JSString.truthy _) eqn:Htruthy; [|discriminate].
  intros [= <-]. split; [by apply truthy_nonempty|].
  split; [apply takeWhile_every|].
  destruct (takeWhile_split (SongManager.dropChars (String.length alt) s))
    as (post & Hsplit & Hpost).
  exists post. split; [|exact Hpost].
  rewrite <- Hsplit. by apply prefix_split.
Qed.

Lemma matchHere_sound (s id : string) :
  SongManager.matchHere s = Some id ->
  exists alt, alt ∈ SongManager.alternatives
              /\ SongManager.matchAlternative s alt = Some id.
Proof.
  unfold SongManager.matchHere, SongManager.alternatives. simpl.
  repeat
    (match goal with
     | |- context [SongManager.matchAlternative s ?a] =>
         destruct (SongManager.matchAlternative s a) eqn:?
     end;
     [intros [= <-]; eexists; split; [|eassumption]; set_solver|]).
  discriminate.
Qed.

(** The group of a match is never empty. *)
Lemma regexMatch_nonempty (url id : string) :
  SongManager.regexMatch url = Some id -> id <> "".
Proof.
  induction url as [|c url IH].
  - simpl. discriminate.
  - cbn [SongManager.regexMatch].
    destruct (SongManager.matchHere (String c url)) as [g|] eqn:E; [|exact IH].
    intros [= ->]. apply matchHere_sound in E as (alt & _ & E).
    by apply matchAlternative_sound in E as (Hne & _).
Qed.

(** X1.  A video id that is extracted is not empty, holds none of the
    characters [&], line feed, [?] and [#], and stands in the URL right
    after one of the three address forms, up to the end of the URL or to
    the first of those characters. *)
Theorem extractVideoId_sound (url id : string) :
  SongManager.extractVideoId url = Some id ->
  id <> ""
  /\ everyChar SongManager.inClass id
  /\ exists pre alt post,
      alt ∈ SongManager.alternatives
      /\ url = pre +:+ alt +:+ id +:+ post
      /\ endsGroup post.
Proof.
  unfold SongManager.extractVideoId.
  induction url as [|c url IH].
  - simpl. discriminate.
  - cbn [SongManager.regexMatch].
    destruct (SongManager.matchHere (String c url)) as [g|] eqn:E.
    + intros [= ->]. apply matchHere_sound in E as (alt & Halt & E).
      apply matchAlternative_sound in E as (Hne & Hclass & post & Hs & Hpost).
      split; [exact Hne|]. split; [exact Hclass|].
      exists "", alt, post. by rewrite append_empty_l.
    + intros H. destruct (IH H) as (Hne & Hclass & pre & alt & post & Halt & Hs & Hpost).
      split; [exact Hne|]. split; [exact Hclass|].
      exists (String c pre), alt, post. split; [exact Halt|].
      split; [|exact Hpost]. rewrite append_String. by f_equal.
Qed.

Lemma extractVideoId_sound_witness :
  SongManager.extractVideoId "https://www.youtube.com/watch?v=Q3cj3lVCxr0&t=42"
  = Some "Q3cj3lVCxr0"
  /\ "Q3cj3lVCxr0" <> "".
Proof.
  split; [reflexivity|].
  exact (proj1 (extractVideoId_sound
    "https://www.youtube.com/watch?v=Q3cj3lVCxr0&t=42" "Q3cj3lVCxr0" eq_refl)).
Defined.

Lemma prefix_append (a s : string) : String.prefix a (a +:+ s) = true.
Proof.
  induction a as [|c a IH]; [by destruct s|].
  rewrite append_String. simpl. by destruct (ascii_dec c c).
Qed.

Lemma prefix_head_ne (a c : ascii) (x s : string) :
  a <> c -> String.prefix (String a x) (String c s) = false.
Proof.
  intros H.
  change (String.prefix (String a x) (String c s))
    with (if ascii_dec a c then String.prefix x s else false).
  by destruct (ascii_dec a c).
Qed.

(** No alternative begins at a character other than [y]. *)
Lemma matchHere_not_y (c : ascii) (s : string) :
  Ascii.eqb c "y" = false -> SongManager.matchHere (String c s) = None.
Proof.
  intros Hc. apply Ascii.eqb_neq in Hc.
  unfold SongManager.matchHere, SongManager.alternatives,
    SongManager.matchAlternative.
  cbn [List.fold_right].
  by rewrite !prefix_head_ne by congruence.
Qed.

Lemma matchAlternative_own (alt id post : string) :
  id <> "" -> everyChar SongManager.inClass id -> endsGroup post ->
  SongManager.matchAlternative (alt +:+ id +:+ post) alt = Some id.
Proof.
  intros Hne Hclass Hpost. unfold SongManager.matchAlternative.
  rewrite prefix_append, dropChars_append, takeWhile_group by assumption.
  apply truthy_nonempty in Hne. by rewrite Hne.
Qed.

Lemma matchHere_alternative (alt id post : string) :
  alt ∈ SongManager.alternatives ->
  id <> "" -> everyChar SongManager.inClass id -> endsGroup post ->
  SongManager.matchHere (alt +:+ id +:+ post) = Some id.
Proof.
  intros Halt Hne Hclass Hpost.
  assert (Hown := matchAlternative_own alt id post Hne Hclass Hpost).
  unfold SongManager.matchHere, SongManager.alternatives in *.
  cbn [List.fold_right].
  repeat (apply elem_of_cons in Halt as [->|Halt]);
    [ by rewrite Hown
    | rewrite Hown; unfold SongManager.matchAlternative;
      by rewrite !append_String
    | rewrite Hown; unfold SongManager.matchAlternative;
      by rewrite !append_String
    | by apply elem_of_nil in Halt ].
Qed.

(** X2.  Round trip: a URL made of any text without the letter [y], one
    of the three address forms, a non-empty id of allowed characters, and
    then nothing or a part that begins with [&], line feed, [?] or [#],
    gives back that id. *)
Theorem extractVideoId_round_trip (pre alt id post : string) :
  alt ∈ SongManager.alternatives ->
  everyChar (fun c => negb (Ascii.eqb c "y")) pre ->
  id <> "" -> everyChar SongManager.inClass id -> endsGroup post ->
  SongManager.extractVideoId (pre +:+ alt +:+ id +:+ post) = Some id.
Proof.
  intros Halt Hpre Hne Hclass Hpost. unfold SongManager.extractVideoId.
  induction pre as [|c pre IH].
  - rewrite append_empty_l.
    assert (H := matchHere_alternative alt id post Halt Hne Hclass Hpost).
    destruct (alt +:+ id +:+ post); cbn [SongManager.regexMatch];
      by rewrite H.
  - destruct Hpre as [Hc Hpre]. apply negb_true_iff in Hc.
    rewrite append_String. cbn [SongManager.regexMatch].
    rewrite (matchHere_not_y c _ Hc). by apply IH.
Qed.

Lemma extractVideoId_round_trip_witness :
  SongManager.extractVideoId
    ("https://www." +:+ "youtube.com/embed/" +:+ "Q3cj3lVCxr0" +:+ "?rel=0")
  = Some "Q3cj3lVCxr0".
Proof.
  apply (extractVideoId_round_trip "https://www." "youtube.com/embed/"
           "Q3cj3lVCxr0" "?rel=0").
  - apply elem_of_cons. right. apply elem_of_cons. right.
    apply elem_of_cons. by left.
  - simpl. tauto.
  - discriminate.
  - simpl. tauto.
  - reflexivity.
Defined.

End VideoId.

(** ** The song library, further *)
Section LibraryMore.

Variable JSON_stringify : list Song.t -> string.
Variable JSON_parse : string -> settled (list Song.t).

Lemma map_updated_unknown (songId : string) (updates : PartialSong.t)
    (now : string) (l : list Song.t) :
  (forall song, song ∈ l -> Song.id song <> songId) ->
  List.map (SongManager.updated songId updates now) l = l.
Proof.
  induction l as [|song l IH]; intros H; [reflexivity|]. simpl.
  rewrite updated_other by (apply H; left). f_equal.
  apply IH. intros s Hs. apply H. by right.
Qed.

(** X3.  An update for an id that no song of the collection has changes no
    record: the collection is written back as it was. *)
Theorem updateSong_unknown_id (rendered : list Song.t) (songId : string)
    (updates : PartialSong.t) (now : string) (st : SongManager.state) :
  (forall song, song ∈ rendered -> Song.id song <> songId) ->
  SongManager.songs
    (SongManager.updateSong JSON_stringify rendered songId updates now st)
  = rendered
  /\ SongManager.localStorage
       (SongManager.updateSong JSON_stringify rendered songId updates now st)
       !! "karaokeSongLibrary"
     = Some (JSON_stringify rendered).
Proof.
  intros H. unfold SongManager.updateSong.
  rewrite (map_updated_unknown _ _ _ _ H). split; [reflexivity|].
  simpl. apply lookup_insert_eq.
Qed.

Lemma saveSongs_twice (l1 l2 : list Song.t) (st : SongManager.state) :
  SongManager.saveSongs JSON_stringify l2
    (SongManager.saveSongs JSON_stringify l1 st)
  = SongManager.saveSongs JSON_stringify l2 st.
Proof.
  unfold SongManager.saveSongs. simpl. f_equal. apply insert_insert_eq.
Qed.

(** X4.  Two updates made in the same render do not add up: each maps
    over the collection of that render, so the second discards what the
    first wrote, in the state and in the storage. *)
Theorem updateSong_last_writer_wins (rendered : list Song.t)
    (id1 id2 : string) (updates1 updates2 : PartialSong.t) (now1 now2 : string)
    (st : SongManager.state) :
  SongManager.updateSong JSON_stringify rendered id2 updates2 now2
    (SongManager.updateSong JSON_stringify rendered id1 updates1 now1 st)
  = SongManager.updateSong JSON_stringify rendered id2 updates2 now2 st.
Proof. unfold SongManager.updateSong. apply saveSongs_twice. Qed.

(** X5.  An update that carries no [id] keeps the ids of the collection,
    in their order; one that carries no [addedAt] keeps the dates of
    addition. *)
Theorem updateSong_keeps_ids (rendered : list Song.t) (songId : string)
    (updates : PartialSong.t) (now : string) (st : SongManager.state) :
  (PartialSong.id updates = None ->
   List.map Song.id
     (SongManager.songs
        (SongManager.updateSong JSON_stringify rendered songId updates now st))
   = List.map Song.id rendered)
  /\ (PartialSong.addedAt updates = None ->
      List.map Song.addedAt
        (SongManager.songs
           (SongManager.updateSong JSON_stringify rendered songId updates now st))
      = List.map Song.addedAt rendered).
Proof.
  unfold SongManager.updateSong. simpl. rewrite !List.map_map.
  split; intros H; apply List.map_ext; intros song;
    unfold SongManager.updated; case_bool_decide; simpl; by rewrite ?H.
Qed.

End LibraryMore.

Lemma updateSong_unknown_id_witness :
  let song := fun id : string =>
    Song.mk id "https://youtu.be/Q3cj3lVCxr0" "Yana Yana" "Semicenk" "tr"
      Status.ready None None LyricsStatus.verified [] "" true None None None
      None None "2025-01-01T00:00:00.000Z" "2025-01-01T00:00:00.000Z" None in
  let st := SongManager.mk [] "" None false ∅ [] in
  SongManager.songs
    (SongManager.updateSong (fun _ => "[]") [song "a"; song "b"] "song-17"
       (SongManager.statusUpdate Status.downloading)
       "2025-06-01T00:00:00.000Z" st)
  = [song "a"; song "b"].
Proof.
  intros song st.
  apply (updateSong_unknown_id (fun _ => "[]") [song "a"; song "b"] "song-17"
           (SongManager.statusUpdate Status.downloading)
           "2025-06-01T00:00:00.000Z" st).
  intros s Hs. repeat (apply elem_of_cons in Hs as [->|Hs]); try discriminate.
  by apply elem_of_nil in Hs.
Defined.

Lemma updateSong_keeps_ids_witness :
  let song := fun id : string =>
    Song.mk id "https://youtu.be/Q3cj3lVCxr0" "Yana Yana" "Semicenk" "tr"
      Status.ready None None LyricsStatus.verified [] "" true None None None
      None None "2025-01-01T00:00:00.000Z" "2025-01-01T00:00:00.000Z" None in
  let st := SongManager.mk [song "a"; song "b"] "" None false ∅ [] in
  List.map Song.id
    (SongManager.songs
       (SongManager.updateSong (fun _ => "[]") [song "a"; song "b"] "b"
          (SongManager.statusUpdate Status.error) "2025-06-01T00:00:00.000Z" st))
  = ["a"; "b"].
Proof.
  intros song st.
  exact (proj1 (updateSong_keeps_ids (fun _ => "[]") [song "a"; song "b"] "b"
                  (SongManager.statusUpdate Status.error)
                  "2025-06-01T00:00:00.000Z" st) eq_refl).
Defined.

Section AddAndLoad.

Variable JSON_stringify : list Song.t -> string.
Variable JSON_parse : string -> settled (list Song.t).

Lemma trimEnd_empty_blank (s : string) : JSString.trimEnd s = "" -> blank s.
Proof.
  induction s as [|c s IH]; simpl; [done|].
  destruct (JSString.trimEnd s); [|discriminate].
  destruct (JSString.isWhiteSpace c); [|discriminate]. auto.
Qed.

Lemma trimStart_blank_inv (s : string) : blank (JSString.trimStart s) -> blank s.
Proof.
  induction s as [|c s IH]; simpl; [done|].
  destruct (JSString.isWhiteSpace c) eqn:E; [auto|].
  simpl. rewrite E. intros [H _]. discriminate.
Qed.

Lemma blank_no_match (s : string) : blank s -> SongManager.regexMatch s = None.
Proof.
  induction s as [|c s IH]; [reflexivity|]. intros [Hc Hs].
  cbn [SongManager.regexMatch]. rewrite matchHere_not_y; [by apply IH|].
  destruct (Ascii.eqb c "y") eqn:E; [|reflexivity].
  apply Ascii.eqb_eq in E. subst c. discriminate.
Qed.

(** A URL with a video id passes the blank test of the handler. *)
Lemma video_id_not_blank (url id : string) :
  SongManager.extractVideoId url = Some id ->
  JSString.truthy (JSString.trim url) = true.
Proof.
  intros H. destruct (JSString.trim url) eqn:E; [|reflexivity].
  apply trimEnd_empty_blank, trimStart_blank_inv, blank_no_match in E.
  unfold SongManager.extractVideoId in H. congruence.
Qed.

(** X6.  Adding a song from a URL with a video id clears the input and
    raises no alert, but the record it saves first does not stay: the
    status update that follows in the same run maps over the collection
    of the render, which does not hold the new record, and writes that
    collection back.  The collection keeps its length, and is unchanged
    when no song already carries the new id. *)
Theorem addNewSong_with_video_id (now : SongManager.clock)
    (st : SongManager.state) (videoId : string) :
  SongManager.extractVideoId (SongManager.newYoutubeUrl st) = Some videoId ->
  let newId := "song-" +:+ pretty (SongManager.Date_now now) in
  let st' := SongManager.addNewSong JSON_stringify now st in
  SongManager.newYoutubeUrl st' = ""
  /\ SongManager.alerts st' = SongManager.alerts st
  /\ length (SongManager.songs st') = length (SongManager.songs st)
  /\ SongManager.localStorage st' !! "karaokeSongLibrary"
     = Some (JSON_stringify (SongManager.songs st'))
  /\ ((forall song, song ∈ SongManager.songs st -> Song.id song <> newId) ->
      SongManager.songs st' = SongManager.songs st).
Proof.
  intros Hid newId st'.
  assert (Hst' :
    st' = SongManager.updateSong JSON_stringify (SongManager.songs st) newId
            (SongManager.statusUpdate Status.downloading)
            (SongManager.toISOString now)
            (SongManager.setNewYoutubeUrl ""
               (SongManager.saveSongs JSON_stringify
                  (SongManager.newSong now (SongManager.newYoutubeUrl st)
                   :: SongManager.songs st) st))).
  { unfold st', SongManager.addNewSong.
    rewrite (video_id_not_blank _ _ Hid), Hid. simpl.
    assert (Hne := regexMatch_nonempty _ _ Hid).
    apply truthy_nonempty in Hne. by rewrite Hne. }
  rewrite Hst'. split; [reflexivity|]. split; [reflexivity|]. split.
  - simpl. apply length_map.
  - split.
    + simpl. apply lookup_insert_eq.
    + intros Hfresh. simpl. by apply map_updated_unknown.
Qed.

(** X7.  Saving the edit modal closes it and overlays the song that has
    the id of the selection with the title, artist, language and lyrics
    of the selection, marking the lyrics as edited by the user; the
    status of the song, its verification flag and its sources stay, and
    so does every other song.  Without a selection nothing happens. *)
Theorem saveEditedSong_overlays_selection (now : string)
    (st : SongManager.state) :
  (SongManager.selectedSong st = None ->
   SongManager.saveEditedSong JSON_stringify now st = st)
  /\ (forall selected : Song.t,
         SongManager.selectedSong st = Some selected ->
         let st' := SongManager.saveEditedSong JSON_stringify now st in
         SongManager.editMode st' = false
         /\ SongManager.selectedSong st' = None
         /\ (forall (i : nat) (song : Song.t),
                SongManager.songs st !! i = Some song ->
                Song.id song <> Song.id selected ->
                SongManager.songs st' !! i = Some song)
         /\ (forall (i : nat) (song : Song.t),
                SongManager.songs st !! i = Some song ->
                Song.id song = Song.id selected ->
                exists edited,
                  SongManager.songs st' !! i = Some edited
                  /\ Song.title edited = Song.title selected
                  /\ Song.artist edited = Song.artist selected
                  /\ Song.language edited = Song.language selected
                  /\ Song.finalLyrics edited = Song.finalLyrics selected
                  /\ Song.lyricsStatus edited = LyricsStatus.user_edited
                  /\ Song.updatedAt edited = now
                  /\ Song.id edited = Song.id song
                  /\ Song.status edited = Song.status song
                  /\ Song.lyricsVerified edited = Song.lyricsVerified song
                  /\ Song.lyricsSources edited = Song.lyricsSources song)).
Proof.
  split.
  - intros H. unfold SongManager.saveEditedSong. by rewrite H.
  - intros selected H st'. unfold st', SongManager.saveEditedSong.
    rewrite H. simpl. split; [reflexivity|]. split; [reflexivity|]. split.
    + intros i song Hi Hid. rewrite map_lookup, Hi. simpl.
      by rewrite updated_other.
    + intros i song Hi Hid. eexists. split.
      * rewrite map_lookup, Hi. simpl. by rewrite updated_target.
      * simpl. auto 12.
Qed.

(** X8.  Reloading: after a collection has been saved, [loadSongs] gives
    it back, provided its JSON text parses to it; the storage is not
    touched.  When nothing is stored the pre-populated collection is
    installed and stored, and a stored text that does not parse makes the
    load fail. *)
Theorem loadSongs_after_saveSongs (defaults : list Song.t)
    (st : SongManager.state) :
  (forall saved : list Song.t,
      JSON_parse (JSON_stringify saved) = Fulfilled saved ->
      JSON_stringify saved <> "" ->
      exists st',
        SongManager.loadSongs JSON_stringify JSON_parse defaults
          (SongManager.saveSongs JSON_stringify saved st)
        = Fulfilled st'
        /\ SongManager.songs st' = saved
        /\ SongManager.localStorage st'
           = SongManager.localStorage
               (SongManager.saveSongs JSON_stringify saved st))
  /\ (SongManager.localStorage st !! "karaokeSongLibrary" = None ->
      exists st',
        SongManager.loadSongs JSON_stringify JSON_parse defaults st
        = Fulfilled st'
        /\ SongManager.songs st' = defaults
        /\ SongManager.localStorage st' !! "karaokeSongLibrary"
           = Some (JSON_stringify defaults))
  /\ (forall text error,
         SongManager.localStorage st !! "karaokeSongLibrary" = Some text ->
         text <> "" ->
         JSON_parse text = Rejected error ->
         SongManager.loadSongs JSON_stringify JSON_parse defaults st
         = Rejected error).
Proof.
  split; [|split].
  - intros saved Hparse Hne. unfold SongManager.loadSongs.
    cbn [SongManager.saveSongs SongManager.localStorage].
    unfold SongManager.storageKey. rewrite lookup_insert_eq.
    apply truthy_nonempty in Hne. rewrite Hne, Hparse. simpl. eauto.
  - intros Hnone. unfold SongManager.loadSongs, SongManager.storageKey.
    rewrite Hnone. eexists. split; [reflexivity|]. split; [reflexivity|].
    simpl. apply lookup_insert_eq.
  - intros text error Htext Hne Hparse.
    unfold SongManager.loadSongs, SongManager.storageKey.
    apply truthy_nonempty in Hne. by rewrite Htext, Hne, Hparse.
Qed.

End AddAndLoad.

Lemma addNewSong_with_video_id_witness :
  let now := SongManager.mk_clock 1700000000000 "2023-11-14T22:13:20.000Z" in
  let library := SongManager.defaultSongs "d" "p" "a" "u" in
  let st := SongManager.mk library "https://youtu.be/Q3cj3lVCxr0" None false ∅ [] in
  SongManager.songs (SongManager.addNewSong (fun _ => "[]") now st) = library.
Proof.
  intros now library st.
  apply (addNewSong_with_video_id (fun _ => "[]") now st "Q3cj3lVCxr0" eq_refl).
  intros song Hsong. apply elem_of_cons in Hsong as [->|Hsong]; [discriminate|].
  by apply elem_of_nil in Hsong.
Defined.

(** The modal holds the first of two songs with a new title and new
    lyrics; the second song is not selected. *)
Lemma saveEditedSong_overlays_selection_witness :
  let song := fun (id title lyrics : string) =>
    Song.mk id "https://youtu.be/Q3cj3lVCxr0" title "Semicenk" "tr" Status.ready
      None None LyricsStatus.verified [] lyrics true None None None None None
      "2025-01-01T00:00:00.000Z" "2025-01-01T00:00:00.000Z" None in
  let st :=
    SongManager.mk [song "a" "Yana Yana" "la la"; song "b" "Ela" "na na"] ""
      (Some (song "a" "Yana Yana (live)" "la la la")) true ∅ [] in
  let st' := SongManager.saveEditedSong (fun _ => "[]") "2025-06-01T00:00:00.000Z" st in
  (exists edited,
      SongManager.songs st' !! 0%nat = Some edited
      /\ Song.title edited = "Yana Yana (live)"
      /\ Song.finalLyrics edited = "la la la"
      /\ Song.lyricsStatus edited = LyricsStatus.user_edited
      /\ Song.updatedAt edited = "2025-06-01T00:00:00.000Z"
      /\ Song.status edited = Status.ready
      /\ Song.lyricsVerified edited = true)
  /\ SongManager.songs st' !! 1%nat = Some (song "b" "Ela" "na na")
  /\ SongManager.editMode st' = false
  /\ SongManager.selectedSong st' = None.
Proof.
  intros song st st'.
  destruct (proj2 (saveEditedSong_overlays_selection (fun _ => "[]")
                     "2025-06-01T00:00:00.000Z" st)
              (song "a" "Yana Yana (live)" "la la la") eq_refl)
    as (Hmode & Hselected & Hothers & Htarget).
  split; [|split; [|split]].
  - destruct (Htarget 0%nat (song "a" "Yana Yana" "la la") eq_refl eq_refl)
      as (edited & Hedited & Htitle & _ & _ & Hlyrics & Hstatus & Hat & _
          & Hsame & Hverified & _).
    exists edited. repeat split; assumption.
  - apply (Hothers 1%nat (song "b" "Ela" "na na") eq_refl). discriminate.
  - exact Hmode.
  - exact Hselected.
Defined.

Lemma loadSongs_after_saveSongs_witness :
  let library := SongManager.defaultSongs "d" "p" "a" "u" in
  let stringify := fun songs : list Song.t => "[" +:+ String.concat "," (List.map Song.id songs) +:+ "]" in
  let parse := fun _ : string => Fulfilled library in
  let st := SongManager.mk [] "" None false ∅ [] in
  exists st',
    SongManager.loadSongs stringify parse []
      (SongManager.saveSongs stringify library st) = Fulfilled st'
    /\ SongManager.songs st' = library
    /\ SongManager.localStorage st'
       = SongManager.localStorage (SongManager.saveSongs stringify library st).
Proof.
  intros library stringify parse st.
  apply (proj1 (loadSongs_after_saveSongs stringify parse [] st) library).
  - reflexivity.
  - discriminate.
Defined.

(** ** The processing pipeline *)
Section PipelineProperties.

Variable JSON_stringify : list Song.t -> string.
Variable rendered : list Song.t.
Variable clockAt : SongManager.site -> string.

Lemma updateSong_lookup_target (songId : string) (updates : PartialSong.t)
    (now : string) (st : SongManager.state) (i : nat) (song : Song.t) :
  rendered !! i = Some song -> Song.id song = songId ->
  SongManager.songs
    (SongManager.updateSong JSON_stringify rendered songId updates now st) !! i
  = Some (SongManager.setUpdatedAt now (SongManager.spread song updates)).
Proof.
  intros Hi Hid. simpl. rewrite map_lookup, Hi. simpl.
  by rewrite updated_target.
Qed.

Lemma updateSong_lookup_other (songId : string) (updates : PartialSong.t)
    (now : string) (st : SongManager.state) (i : nat) (song : Song.t) :
  rendered !! i = Some song -> Song.id song <> songId ->
  SongManager.songs
    (SongManager.updateSong JSON_stringify rendered songId updates now st) !! i
  = Some song.
Proof.
  intros Hi Hid. simpl. rewrite map_lookup, Hi. simpl.
  by rewrite updated_other.
Qed.

(** X9.  [processSong] never leaves the song in the processing state.
    Every song with the id ends as ready, with the version and the data
    path of the answer, when the request succeeds and its body parses,
    and otherwise as an error carrying the message of the failure
    ("Processing failed" for an answer that is not ok); the other songs
    are written back as they were. *)
Theorem processSong_ends_ready_or_error (songId : string)
    (response : settled (ApiResponse.t ProcessResult.t))
    (st : SongManager.state) :
  let st' :=
    SongManager.processSong JSON_stringify rendered clockAt songId response st in
  (forall (i : nat) (song : Song.t),
      rendered !! i = Some song -> Song.id song <> songId ->
      SongManager.songs st' !! i = Some song)
  /\ (forall (i : nat) (song : Song.t),
         rendered !! i = Some song -> Song.id song = songId ->
         exists final,
           SongManager.songs st' !! i = Some final
           /\ ((Song.status final = Status.ready
                /\ Song.processingVersion final = Some "1.0.0"
                /\ exists r result,
                    response = Fulfilled r /\ ApiResponse.ok r = true
                    /\ ApiResponse.json r = Fulfilled result
                    /\ Song.processedDataPath final
                       = ProcessResult.dataPath result)
               \/ (Song.status final = Status.error
                   /\ exists message,
                       Song.error final = Some message
                       /\ (response = Rejected message
                           \/ exists r,
                               response = Fulfilled r
                               /\ ((ApiResponse.ok r = false
                                    /\ message = "Processing failed")
                                   \/ (ApiResponse.ok r = true
                                       /\ ApiResponse.json r
                                          = Rejected message)))))).
Proof.
  intros st'.
  unfold st', SongManager.processSong, SongManager.updateSongStatus, await.
  split.
  - intros i song Hi Hid.
    destruct response as [r|message]; cbv beta iota zeta;
      [destruct (ApiResponse.ok r); [destruct (ApiResponse.json r)|]|];
      by apply updateSong_lookup_other.
  - intros i song Hi Hid.
    destruct response as [r|message]; cbv beta iota zeta;
      [destruct (ApiResponse.ok r) eqn:Hok;
       [destruct (ApiResponse.json r) as [result|message] eqn:Hjson|]|];
      eexists; (split; [by apply updateSong_lookup_target|]).
    + left. simpl. eauto 10.
    + right. simpl. eauto 10.
    + right. simpl. eauto 10.
    + right. simpl. eauto 10.
Qed.

(** The last update of a run of the pipeline. *)
Lemma processSong_final (songId : string)
    (response : settled (ApiResponse.t ProcessResult.t))
    (st : SongManager.state) :
  exists updates now st0,
    SongManager.processSong JSON_stringify rendered clockAt songId response st
    = SongManager.updateSong JSON_stringify rendered songId updates now st0
    /\ keepsDescription updates /\ quietUpdate updates.
Proof.
  unfold SongManager.processSong, SongManager.updateSongStatus, await.
  destruct response as [r|message]; cbv beta iota zeta;
    [destruct (ApiResponse.ok r); [destruct (ApiResponse.json r)|]|];
    eexists _, _, _; (split; [reflexivity|]);
    (split; [by repeat split|]); intros song now; reflexivity.
Qed.

Lemma lyricsUpdates_quiet (sources : list LyricsSource.t) :
  keepsDescription (SongManager.lyricsUpdates sources)
  /\ quietUpdate (SongManager.lyricsUpdates sources).
Proof.
  split; [by repeat split|]. intros song now _.
  unfold SongManager.showsProcessButton, SongManager.lyricsUpdates. simpl.
  by destruct (SongManager.verifiedSources sources).
Qed.

Lemma searchLyrics_final (song : Song.t)
    (response : settled (ApiResponse.t LyricsData.t))
    (processResponse : settled (ApiResponse.t ProcessResult.t))
    (st : SongManager.state) :
  exists updates now st0,
    SongManager.searchLyrics JSON_stringify rendered clockAt song response
      processResponse st
    = SongManager.updateSong JSON_stringify rendered (Song.id song) updates
        now st0
    /\ keepsDescription updates /\ quietUpdate updates.
Proof.
  unfold SongManager.searchLyrics.
  destruct response as [r|message];
    [destruct (ApiResponse.ok r);
     [destruct (ApiResponse.json r) as [lyricsData|message];
      [destruct (SongManager.verifiedSources
                   (default [] (LyricsData.sources lyricsData)))|]|]|].
  - apply processSong_final.
  - eexists _, _, _. split; [reflexivity|]. apply lyricsUpdates_quiet.
  - eexists _, _, _. split; [reflexivity|].
    split; [by repeat split|]. intros s now H.
    unfold SongManager.showsProcessButton in *. exact H.
  - eexists _, _, _. split; [reflexivity|].
    split; [by repeat split|]. intros s now _. reflexivity.
  - eexists _, _, _. split; [reflexivity|].
    split; [by repeat split|]. intros s now H.
    unfold SongManager.showsProcessButton in *. exact H.
Qed.

Lemma processNewSong_final (song : Song.t) (net : SongManager.network)
    (st : SongManager.state) :
  exists updates now st0,
    SongManager.processNewSong JSON_stringify rendered clockAt song net st
    = SongManager.updateSong JSON_stringify rendered (Song.id song) updates
        now st0
    /\ keepsDescription updates /\ quietUpdate updates.
Proof.
  unfold SongManager.processNewSong, SongManager.downloadAudio, await.
  destruct (SongManager.downloadResponse net) as [r|message];
    cbv beta iota zeta;
    [destruct (ApiResponse.ok r); [destruct (ApiResponse.json r)|]|];
    try apply searchLyrics_final;
    unfold SongManager.updateSongStatus;
    eexists _, _, _; (split; [reflexivity|]);
    (split; [by repeat split|]); intros s now; reflexivity.
Qed.

(** X10.  A run of the pipeline does not change how a song is described.
    Whatever the four requests answer, every song of the collection it
    leaves has the id, URL, title, artist, language, duration, thumbnail,
    audio file path and dates of download and addition that it has in the
    collection of the render: the metadata and the file path that the run
    obtained are overwritten by its later updates, which map over that
    same collection. *)
Theorem processNewSong_keeps_description (song : Song.t)
    (net : SongManager.network) (st : SongManager.state)
    (i : nat) (before : Song.t) :
  rendered !! i = Some before ->
  exists after,
    SongManager.songs
      (SongManager.processNewSong JSON_stringify rendered clockAt song net st)
      !! i = Some after
    /\ Song.id after = Song.id before
    /\ Song.youtubeUrl after = Song.youtubeUrl before
    /\ Song.title after = Song.title before
    /\ Song.artist after = Song.artist before
    /\ Song.language after = Song.language before
    /\ Song.duration after = Song.duration before
    /\ Song.thumbnailUrl after = Song.thumbnailUrl before
    /\ Song.audioFilePath after = Song.audioFilePath before
    /\ Song.downloadedAt after = Song.downloadedAt before
    /\ Song.addedAt after = Song.addedAt before.
Proof.
  intros Hi.
  destruct (processNewSong_final song net st)
    as (updates & now & st0 & -> & Hkeeps & _).
  destruct (decide (Song.id before = Song.id song)) as [Hid|Hid].
  - eexists. split; [by apply updateSong_lookup_target|].
    destruct Hkeeps as (H1 & H2 & H3 & H4 & H5 & H6 & H7 & H8 & H9 & H10).
    simpl. by rewrite H1, H2, H3, H4, H5, H6, H7, H8, H9, H10.
  - exists before. split; [by apply updateSong_lookup_other|]. by repeat split.
Qed.

(** X11.  When the download fails, by a network error, an answer that is
    not ok or a body that does not parse, the run stops there whatever
    the metadata request did: every song with the id ends in the error
    state with the message "Audio download failed: " followed by the
    cause, and its lyrics status is the one of the render. *)
Theorem processNewSong_download_failure (song : Song.t)
    (net : SongManager.network) (st : SongManager.state) (cause : string) :
  SongManager.downloadResponse net = Rejected cause
  \/ (exists r,
        SongManager.downloadResponse net = Fulfilled r
        /\ ((ApiResponse.ok r = false /\ cause = "Download failed")
            \/ (ApiResponse.ok r = true
                /\ ApiResponse.json r = Rejected cause))) ->
  forall (i : nat) (before : Song.t),
    rendered !! i = Some before -> Song.id before = Song.id song ->
    exists after,
      SongManager.songs
        (SongManager.processNewSong JSON_stringify rendered clockAt song net st)
        !! i = Some after
      /\ Song.status after = Status.error
      /\ Song.error after = Some ("Audio download failed: " +:+ cause)
      /\ Song.lyricsStatus after = Song.lyricsStatus before.
Proof.
  intros Hfail i before Hi Hid.
  assert (Hrun :
    SongManager.processNewSong JSON_stringify rendered clockAt song net st
    = SongManager.updateSongStatus JSON_stringify rendered (Song.id song)
        Status.error
        (SongManager.errorUpdate ("Audio download failed: " +:+ cause))
        (clockAt SongManager.atFailed)
        (SongManager.extractMetadata JSON_stringify rendered clockAt song
           (SongManager.metadataResponse net) st)).
  { unfold SongManager.processNewSong, SongManager.downloadAudio, await.
    destruct Hfail as [->|(r & -> & [[-> ->]|[-> ->]])]; reflexivity. }
  rewrite Hrun. unfold SongManager.updateSongStatus.
  eexists. split; [by apply updateSong_lookup_target|]. by repeat split.
Qed.

(** The pipeline updates keep the button for manual processing away. *)
Lemma updateSong_quiet (songId : string) (updates : PartialSong.t)
    (now : string) (st : SongManager.state) :
  quietUpdate updates -> noManualProcessing rendered ->
  noManualProcessing
    (SongManager.songs
       (SongManager.updateSong JSON_stringify rendered songId updates now st)).
Proof.
  intros Hquiet Hrendered song Hsong. simpl in Hsong.
  apply list_elem_of_In, List.in_map_iff in Hsong as (before & <- & Hbefore).
  apply list_elem_of_In in Hbefore. unfold SongManager.updated.
  case_bool_decide; auto.
Qed.

End PipelineProperties.

Lemma processSong_ends_ready_or_error_witness :
  let library := SongManager.defaultSongs "d" "p" "a" "u" in
  let st := SongManager.mk library "" None false ∅ [] in
  exists final,
    SongManager.songs
      (SongManager.processSong (fun _ => "[]") library (fun _ => "now")
         "yana-yana-semicenk-reynmen" (Rejected "Failed to fetch") st)
      !! 0%nat = Some final
    /\ Song.status final = Status.error
    /\ Song.error final = Some "Failed to fetch".
Proof.
  intros library st.
  destruct (proj2 (processSong_ends_ready_or_error (fun _ => "[]") library
                     (fun _ => "now") "yana-yana-semicenk-reynmen"
                     (Rejected "Failed to fetch") st)
              0%nat _ eq_refl eq_refl)
    as (final & Hfinal & _).
  exists final. split; [exact Hfinal|].
  injection Hfinal as <-. split; reflexivity.
Defined.

Lemma processNewSong_keeps_description_witness :
  let library := SongManager.defaultSongs "d" "p" "a" "u" in
  let st := SongManager.mk library "" None false ∅ [] in
  let metadata :=
    VideoMetadata.mk (Some "Another title") None None None None None in
  let net :=
    SongManager.mk_network
      (Fulfilled (ApiResponse.mk true (Fulfilled metadata)))
      (Fulfilled (ApiResponse.mk true (Fulfilled (DownloadResult.mk (Some "/a.mp3")))))
      (Fulfilled (ApiResponse.mk false (Rejected "")))
      (Rejected "") in
  exists after,
    SongManager.songs
      (SongManager.processNewSong (fun _ => "[]") library (fun _ => "now")
         (SongManager.newSong (SongManager.mk_clock 17 "now") "u") net st)
      !! 0%nat = Some after
    /\ Song.title after = "Yana Yana"
    /\ Song.audioFilePath after = Some "/data/raw/yana.mp3".
Proof.
  intros library st metadata net.
  destruct (processNewSong_keeps_description (fun _ => "[]") library
              (fun _ => "now")
              (SongManager.newSong (SongManager.mk_clock 17 "now") "u") net st
              0%nat _ eq_refl)
    as (after & Hafter & _ & _ & Htitle & _ & _ & _ & _ & Hpath & _).
  exists after. split; [exact Hafter|]. split; [exact Htitle|exact Hpath].
Defined.

Lemma processNewSong_download_failure_witness :
  let library := SongManager.defaultSongs "d" "p" "a" "u" in
  let st := SongManager.mk library "" None false ∅ [] in
  let net :=
    SongManager.mk_network (Rejected "offline")
      (Fulfilled (ApiResponse.mk false (Rejected ""))) (Rejected "") (Rejected "") in
  exists song after,
    library !! 0%nat = Some song
    /\ SongManager.songs
         (SongManager.processNewSong (fun _ => "[]") library (fun _ => "now")
            song net st) !! 0%nat = Some after
    /\ Song.error after = Some "Audio download failed: Download failed".
Proof.
  intros library st net.
  destruct (library !! 0%nat) as [song|] eqn:Hsong; [|discriminate].
  destruct (processNewSong_download_failure (fun _ => "[]") library
              (fun _ => "now") song net st "Download failed"
              (or_intror (ex_intro _ _ (conj eq_refl (or_introl (conj eq_refl eq_refl)))))
              0%nat song Hsong eq_refl)
    as (after & Hafter & _ & Herror & _).
  exists song, after. split; [reflexivity|]. split; [exact Hafter|exact Herror].
Defined.

(** ** The button for manual processing *)
Section ManualProcessing.

Variable JSON_stringify : list Song.t -> string.

Lemma noManualProcessing_cons (song : Song.t) (library : list Song.t) :
  SongManager.showsProcessButton song = false ->
  noManualProcessing library -> noManualProcessing (song :: library).
Proof.
  intros Hsong Hlibrary s Hs. apply elem_of_cons in Hs as [->|Hs]; auto.
Qed.

(** X12.  No operation of the manager makes the button for manual
    processing appear: the pre-populated collection has no song that
    shows it, and adding a song, saving an edit, a run of the pipeline
    and a run of [processSong] lead from a collection without such a
    song to a collection without such a song.  The search marks lyrics
    as found only when it also marks them as verified. *)
Theorem manual_processing_never_offered :
  (forall downloadedAt processedAt addedAt updatedAt,
      noManualProcessing
        (SongManager.defaultSongs downloadedAt processedAt addedAt updatedAt))
  /\ (forall now st,
         noManualProcessing (SongManager.songs st) ->
         noManualProcessing
           (SongManager.songs (SongManager.addNewSong JSON_stringify now st)))
  /\ (forall now st,
         noManualProcessing (SongManager.songs st) ->
         noManualProcessing
           (SongManager.songs (SongManager.saveEditedSong JSON_stringify now st)))
  /\ (forall rendered clockAt song net st,
         noManualProcessing rendered ->
         noManualProcessing
           (SongManager.songs
              (SongManager.processNewSong JSON_stringify rendered clockAt song
                 net st)))
  /\ (forall rendered clockAt songId response st,
         noManualProcessing rendered ->
         noManualProcessing
           (SongManager.songs
              (SongManager.processSong JSON_stringify rendered clockAt songId
                 response st))).
Proof.
  split; [|split; [|split; [|split]]].
  - intros d p a u song Hsong.
    apply elem_of_cons in Hsong as [->|Hsong]; [reflexivity|].
    by apply elem_of_nil in Hsong.
  - intros now st H. unfold SongManager.addNewSong.
    destruct (negb _); [exact H|].
    destruct (SongManager.extractVideoId _) as [videoId|]; [|exact H].
    destruct (negb _); [exact H|].
    unfold SongManager.updateSongStatus. apply updateSong_quiet; [|exact H].
    intros song t _. reflexivity.
  - intros now st H. unfold SongManager.saveEditedSong.
    destruct (SongManager.selectedSong st) as [selected|]; [|exact H].
    cbn [SongManager.songs].
    apply (updateSong_quiet JSON_stringify (SongManager.songs st)); [|exact H].
    intros song t Hsong. unfold SongManager.showsProcessButton in *.
    exact Hsong.
  - intros rendered clockAt song net st H.
    destruct (processNewSong_final JSON_stringify rendered clockAt song net st)
      as (updates & now & st0 & -> & _ & Hquiet).
    by apply updateSong_quiet.
  - intros rendered clockAt songId response st H.
    destruct (processSong_final JSON_stringify rendered clockAt songId response st)
      as (updates & now & st0 & -> & _ & Hquiet).
    by apply updateSong_quiet.
Qed.

End ManualProcessing.

Lemma manual_processing_never_offered_witness :
  let library := SongManager.defaultSongs "d" "p" "a" "u" in
  let st := SongManager.mk library "https://youtu.be/Q3cj3lVCxr0" None false ∅ [] in
  let now := SongManager.mk_clock 1700000000000 "2023-11-14T22:13:20.000Z" in
  noManualProcessing
    (SongManager.songs (SongManager.addNewSong (fun _ => "[]") now st)).
Proof.
  intros library st now.
  apply (proj1 (proj2 (manual_processing_never_offered (fun _ => "[]")))).
  apply (proj1 (manual_processing_never_offered (fun _ => "[]"))).
Defined.

(** ** Language detection *)
Section Language.

Lemma existsb_false {A : Type} (p : A -> bool) (l : list A) :
  (forall x, In x l -> p x = false) -> existsb p l = false.
Proof.
  intros H. destruct (existsb p l) eqn:E; [|reflexivity].
  apply existsb_exists in E as (x & Hx & Hp). rewrite H in Hp; auto.
Qed.

Lemma existsb_weaken {A : Type} (p q : A -> bool) (l : list A) :
  (forall x, p x = true -> q x = true) ->
  existsb p l = true -> existsb q l = true.
Proof.
  intros H E. apply existsb_exists in E as (x & Hx & Hp).
  apply existsb_exists. eauto.
Qed.

Lemma in_class (u : N) (class : list N) :
  existsb (N.eqb u) class = true <-> In u class.
Proof.
  rewrite existsb_exists. split.
  - intros (x & Hx & Heq). apply N.eqb_eq in Heq. by subst.
  - intros H. exists u. split; [exact H|apply N.eqb_refl].
Qed.

(** Every letter of the Spanish class is in the French class, and so is
    every letter of the German class but the sharp s. *)
Lemma spanish_french (u : N) :
  SongManager.spanish u = true -> SongManager.french u = true.
Proof.
  unfold SongManager.spanish, SongManager.french. rewrite !in_class.
  simpl. intuition (subst; auto 40).
Qed.

Lemma german_french (u : N) :
  SongManager.german u = true -> u <> 0xdf%N -> SongManager.french u = true.
Proof.
  unfold SongManager.german, SongManager.french. rewrite !in_class.
  simpl. intuition (subst; auto 40).
Qed.

(** X13.  The detection never answers Spanish: every letter of the
    Spanish class is also in the French class, which is tested first.
    The answer is one of the eight other codes. *)
Theorem detectLanguage_never_spanish :
  (forall text : list N,
      SongManager.languageOf text <> "es"
      /\ In (SongManager.languageOf text)
           ["ar"; "zh"; "ja"; "ru"; "tr"; "fr"; "de"; "en"])
  /\ (forall title description : option string,
         SongManager.detectLanguage title description <> "es").
Proof.
  assert (H : forall text : list N,
             SongManager.languageOf text <> "es"
             /\ In (SongManager.languageOf text)
                  ["ar"; "zh"; "ja"; "ru"; "tr"; "fr"; "de"; "en"]).
  { intros text. unfold SongManager.languageOf.
    destruct (existsb SongManager.arabic text); [split; [discriminate|simpl; tauto]|].
    destruct (existsb SongManager.chinese text); [split; [discriminate|simpl; tauto]|].
    destruct (existsb SongManager.japanese text); [split; [discriminate|simpl; tauto]|].
    destruct (existsb SongManager.russian text); [split; [discriminate|simpl; tauto]|].
    destruct (existsb SongManager.turkish text); [split; [discriminate|simpl; tauto]|].
    destruct (existsb SongManager.french text) eqn:Hfrench;
      [split; [discriminate|simpl; tauto]|].
    destruct (existsb SongManager.german text); [split; [discriminate|simpl; tauto]|].
    destruct (existsb SongManager.spanish text) eqn:Hspanish;
      [|split; [discriminate|simpl; tauto]].
    apply (existsb_weaken _ _ _ spanish_french) in Hspanish. congruence. }
  split; [exact H|]. intros title description. apply H.
Qed.

(** X14.  The detection answers German only for a text that holds a
    sharp s and no letter of the French class: a text with an a-umlaut,
    an o-umlaut or a u-umlaut is never detected as German. *)
Theorem detectLanguage_german_needs_sharp_s (text : list N) :
  (SongManager.languageOf text = "de" ->
   In 0xdf%N text /\ forall u, In u text -> SongManager.french u = false)
  /\ (In 0xe4%N text \/ In 0xf6%N text \/ In 0xfc%N text ->
      SongManager.languageOf text <> "de").
Proof.
  assert (Hde : SongManager.languageOf text = "de" ->
                In 0xdf%N text
                /\ forall u, In u text -> SongManager.french u = false).
  { unfold SongManager.languageOf.
    destruct (existsb SongManager.arabic text); [discriminate|].
    destruct (existsb SongManager.chinese text); [discriminate|].
    destruct (existsb SongManager.japanese text); [discriminate|].
    destruct (existsb SongManager.russian text); [discriminate|].
    destruct (existsb SongManager.turkish text); [discriminate|].
    destruct (existsb SongManager.french text) eqn:Hfrench; [discriminate|].
    destruct (existsb SongManager.german text) eqn:Hgerman;
      [|destruct (existsb SongManager.spanish text); discriminate].
    intros _.
    assert (Hnone : forall u, In u text -> SongManager.french u = false).
    { intros u Hu. destruct (SongManager.french u) eqn:E; [|reflexivity].
      assert (existsb SongManager.french text = true)
        by (apply existsb_exists; eauto).
      congruence. }
    split; [|exact Hnone].
    apply existsb_exists in Hgerman as (u & Hu & Hg).
    destruct (N.eq_dec u 0xdf%N) as [->|Hne]; [exact Hu|].
    specialize (Hnone u Hu). rewrite (german_french u Hg Hne) in Hnone.
    discriminate. }
  split; [exact Hde|].
  intros Humlaut Hlang. destruct (Hde Hlang) as [_ Hnone].
  destruct Humlaut as [H|[H|H]]; apply Hnone in H; discriminate.
Qed.

Lemma detectLanguage_german_needs_sharp_s_witness :
  SongManager.languageOf (JSString.codeUnits "sch" ++ [0xf6%N] ++ JSString.codeUnits "n")
  <> "de".
Proof.
  apply (proj2 (detectLanguage_german_needs_sharp_s
                  (JSString.codeUnits "sch" ++ [0xf6%N] ++ JSString.codeUnits "n"))).
  right; left. simpl. tauto.
Defined.

Lemma toLowerCase_ascii (s : string) :
  everyChar isAscii s -> everyChar isAscii (JSString.toLowerCase s).
Proof.
  induction s as [|c s IH]; [done|]. intros [Hc Hs]. split; [|by apply IH].
  clear -Hc. destruct c as [[] [] [] [] [] [] [] []]; try discriminate Hc;
    reflexivity.
Qed.

Lemma everyChar_append (p : ascii -> bool) (s t : string) :
  everyChar p s -> everyChar p t -> everyChar p (s +:+ t).
Proof.
  intros Hs Ht. induction s as [|c s IH]; [exact Ht|].
  destruct Hs as [Hc Hs]. rewrite append_String. split; auto.
Qed.

Lemma codeUnits_ascii (s : string) (u : N) :
  everyChar isAscii s -> In u (JSString.codeUnits s) -> (u < 128)%N.
Proof.
  induction s as [|c s IH]; [intros _ []|].
  intros [Hc Hs] [<-|Hu]; [|by apply IH].
  by apply N.ltb_lt.
Qed.

Lemma languageOf_ascii (text : list N) :
  (forall u, In u text -> (u < 128)%N) -> SongManager.languageOf text = "en".
Proof.
  intros H. unfold SongManager.languageOf.
  assert (Hrange : forall lo hi, (128 <= lo)%N ->
            forall u, In u text -> SongManager.inRange lo hi u = false).
  { intros lo hi Hlo u Hu. apply H in Hu. unfold SongManager.inRange.
    apply andb_false_iff. left. apply N.leb_gt. lia. }
  assert (Hlist : forall class, Forall (fun k => (128 <= k)%N) class ->
            forall u, In u text -> existsb (N.eqb u) class = false).
  { intros class Hclass u Hu. apply H in Hu. apply existsb_false.
    intros k Hk. apply N.eqb_neq. rewrite Forall_forall in Hclass.
    apply list_elem_of_In, Hclass in Hk. lia. }
  rewrite (existsb_false SongManager.arabic) by (apply Hrange; lia).
  rewrite (existsb_false SongManager.chinese) by (apply Hrange; lia).
  rewrite (existsb_false SongManager.japanese)
    by (intros u Hu; unfold SongManager.japanese;
        rewrite !Hrange by (done || lia); reflexivity).
  rewrite (existsb_false SongManager.russian) by (apply Hrange; lia).
  rewrite (existsb_false SongManager.turkish)
    by (apply Hlist; repeat constructor; lia).
  rewrite (existsb_false SongManager.french)
    by (apply Hlist; repeat constructor; lia).
  rewrite (existsb_false SongManager.german)
    by (apply Hlist; repeat constructor; lia).
  rewrite (existsb_false SongManager.spanish)
    by (apply Hlist; repeat constructor; lia).
  reflexivity.
Qed.

(** X15.  A title and a description written in ASCII are detected as
    English, and so are an absent title and an absent description. *)
Theorem detectLanguage_ascii_is_english (title description : option string) :
  everyChar isAscii (default "" title) ->
  everyChar isAscii (default "" description) ->
  SongManager.detectLanguage title description = "en".
Proof.
  intros Htitle Hdescription. unfold SongManager.detectLanguage.
  apply languageOf_ascii. intros u.
  apply codeUnits_ascii, toLowerCase_ascii.
  apply everyChar_append; [|apply everyChar_append; [by split|exact Hdescription]].
  destruct title; [exact Htitle|]. simpl. tauto.
Qed.

Lemma detectLanguage_ascii_is_english_witness :
  SongManager.detectLanguage (Some "Yana Yana") (Some "Official Video")
  = "en".
Proof.
  apply (detectLanguage_ascii_is_english (Some "Yana Yana")
           (Some "Official Video")); simpl; tauto.
Defined.

End Language.

(** ** Percentages *)
Section Percentages.

Lemma div_fin (x y : Q) : ~ y == 0 -> JS.div (Fin x) (Fin y) = Fin (x / y).
Proof.
  intros H. simpl. replace (Qeq_bool y 0) with false; [reflexivity|].
  symmetry. apply not_true_is_false. by rewrite Qeq_bool_iff.
Qed.

Lemma Qlt_bool_false (x y : Q) : JS.Qlt_bool x y = false <-> y <= x.
Proof.
  rewrite <- not_true_iff_false, Qlt_bool_iff. split; intros H; lra.
Qed.

(** The clamp [Math.min(100, Math.max(0, x))] lets [NaN] through and
    nothing else outside of [0, 100]. *)
Lemma clamp_range (x : number) :
  JS.Math_min (Fin 100) (JS.Math_max (Fin 0) x) = NaN
  \/ (JS.Le (Fin 0) (JS.Math_min (Fin 100) (JS.Math_max (Fin 0) x))
      /\ JS.Le (JS.Math_min (Fin 100) (JS.Math_max (Fin 0) x)) (Fin 100)).
Proof.
  destruct x as [q| | |]; simpl; auto.
  - right. destruct (JS.Qlt_bool 0 q) eqn:E0; simpl.
    + apply Qlt_bool_iff in E0.
      destruct (JS.Qlt_bool q 100) eqn:E1; split; constructor;
        try apply Qlt_bool_iff in E1; lra.
    + split; constructor; lra.
  - right. split; constructor; lra.
  - right. split; constructor; lra.
Qed.

Lemma percentWithin_range (time s e : number) :
  percentWithin time s e = NaN
  \/ (JS.Le (Fin 0) (percentWithin time s e)
      /\ JS.Le (percentWithin time s e) (Fin 100)).
Proof.
  unfold percentWithin.
  destruct (JS.lt time s); [right; split; constructor; lra|].
  destruct (JS.gt time e); [right; split; constructor; lra|].
  apply clamp_range.
Qed.

(** X16.  The progress of a word and of a segment is a percentage between
    0 and 100 or [NaN], for every time and all bounds, also malformed
    ones. *)
Theorem progress_between_0_and_100 (time : number) :
  (forall word : Word.t,
      WordTimingDisplay.getWordProgress time word = NaN
      \/ (JS.Le (Fin 0) (WordTimingDisplay.getWordProgress time word)
          /\ JS.Le (WordTimingDisplay.getWordProgress time word) (Fin 100)))
  /\ (forall segment : Segment.t,
         WordTimingDisplay.getSegmentProgress time segment = NaN
         \/ (JS.Le (Fin 0) (WordTimingDisplay.getSegmentProgress time segment)
             /\ JS.Le (WordTimingDisplay.getSegmentProgress time segment)
                  (Fin 100))).
Proof.
  split.
  - intros word. rewrite getWordProgress_percentWithin.
    apply percentWithin_range.
  - intros segment. rewrite getSegmentProgress_percentWithin.
    apply percentWithin_range.
Qed.

Lemma percentWithin_nan_iff (s e t : Q) :
  percentWithin (Fin t) (Fin s) (Fin e) = NaN <-> t == s /\ e == s.
Proof.
  unfold percentWithin, JS.gt. cbn [JS.lt].
  destruct (JS.Qlt_bool t s) eqn:Ets.
  { apply Qlt_bool_iff in Ets. split; [discriminate|]. intros [H _]. lra. }
  destruct (JS.Qlt_bool e t) eqn:Eet.
  { apply Qlt_bool_iff in Eet. apply Qlt_bool_false in Ets.
    split; [discriminate|]. intros [H1 H2]. lra. }
  apply Qlt_bool_false in Ets, Eet. cbn [JS.sub JS.div].
  destruct (Qeq_bool (e - s) 0) eqn:Ed.
  - apply Qeq_bool_iff in Ed.
    replace (Qeq_bool (t - s) 0) with true
      by (symmetry; apply Qeq_bool_iff; lra).
    simpl. split; [intros _; split; lra|reflexivity].
  - apply not_true_iff_false in Ed. rewrite Qeq_bool_iff in Ed.
    split; [|intros [H1 H2]; lra].
    simpl. destruct (JS.Qlt_bool 0 _); simpl;
      repeat (match goal with
              | |- context [JS.Qlt_bool ?a ?b] => destruct (JS.Qlt_bool a b)
              end; simpl);
      discriminate.
Qed.

(** X17.  With bounds and a time of magnitude at most [2^1022], so that
    no difference leaves the range of the finite doubles, the progress is
    [NaN] in one case only: a unit of zero length, asked at its very
    instant.  An inverted unit never gives [NaN]. *)
Theorem progress_nan_only_at_degenerate_instant (s e t : Q) :
  halfRange s -> halfRange e -> halfRange t ->
  (forall word : Word.t,
      Word.start word = Fin s -> Word.end_ word = Fin e ->
      (WordTimingDisplay.getWordProgress (Fin t) word = NaN
       <-> t == s /\ e == s))
  /\ (forall segment : Segment.t,
         Segment.start segment = Fin s -> Segment.end_ segment = Fin e ->
         (WordTimingDisplay.getSegmentProgress (Fin t) segment = NaN
          <-> t == s /\ e == s)).
Proof.
  intros _ _ _. split.
  - intros word Hs He. rewrite getWordProgress_percentWithin, Hs, He.
    apply percentWithin_nan_iff.
  - intros segment Hs He. rewrite getSegmentProgress_percentWithin, Hs, He.
    apply percentWithin_nan_iff.
Qed.

(** A word of zero length at second 2, asked at second 2. *)
Lemma progress_nan_only_at_degenerate_instant_witness :
  let word := Word.mk "ah" (Fin 2) (Fin 2) (Fin 1) [] None in
  halfRange 2 /\ WordTimingDisplay.getWordProgress (Fin 2) word = NaN.
Proof.
  intros word.
  assert (H : halfRange 2) by (split; unfold Qle; simpl; lia).
  split; [exact H|].
  apply (proj1 (progress_nan_only_at_degenerate_instant 2 2 2 H H H)
           word eq_refl eq_refl).
  split; reflexivity.
Defined.

(** X18.  The overall progress of the bar is guarded against a zero
    duration: it is 0 whenever the duration is not above 0, it is never
    [NaN] for a finite time, and it lies between 0 and 100 when the time
    lies between 0 and a positive duration. *)
Theorem progressPercentage_guarded (t : Q) (duration : number) :
  (JS.gt duration (Fin 0) = false ->
   forall currentTime,
     ProgressBar.progressPercentage currentTime duration = Fin 0)
  /\ ProgressBar.progressPercentage (Fin t) duration <> NaN
  /\ (forall d : Q,
         duration = Fin d -> 0 <= t -> t <= d -> 0 < d ->
         exists p,
           ProgressBar.progressPercentage (Fin t) duration = Fin p
           /\ 0 <= p /\ p <= 100).
Proof.
  split; [|split].
  - intros H currentTime. unfold ProgressBar.progressPercentage. by rewrite H.
  - unfold ProgressBar.progressPercentage.
    destruct duration as [d| | |]; simpl; try discriminate.
    destruct (JS.Qlt_bool 0 d) eqn:E; [|discriminate].
    apply Qlt_bool_iff in E.
    replace (Qeq_bool d 0) with false; [simpl; discriminate|].
    symmetry. apply not_true_is_false. rewrite Qeq_bool_iff. lra.
  - intros d -> H0 Htd Hd. unfold ProgressBar.progressPercentage, JS.gt.
    cbn [JS.lt]. replace (JS.Qlt_bool 0 d) with true
      by (symmetry; by apply Qlt_bool_iff).
    rewrite div_fin by lra. eexists. split; [reflexivity|].
    assert (H1 : 0 <= t / d) by (apply Qle_shift_div_l; lra).
    assert (H2 : t / d <= 1) by (apply Qle_shift_div_r; lra).
    set (r := t / d) in *. lra.
Qed.

(** Second 30 before the duration is known, and second 30 of 147. *)
Lemma progressPercentage_guarded_witness :
  ProgressBar.progressPercentage (Fin 30) (Fin 0) = Fin 0
  /\ exists p,
       ProgressBar.progressPercentage (Fin 30) (Fin 147) = Fin p
       /\ 0 <= p /\ p <= 100.
Proof.
  split.
  - exact (proj1 (progressPercentage_guarded 30 (Fin 0)) eq_refl (Fin 30)).
  - apply (proj2 (proj2 (progressPercentage_guarded 30 (Fin 147))) 147 eq_refl);
      unfold Qle, Qlt; simpl; lia.
Defined.

(** X19.  A click on the track asks for a time inside the song: with a
    track of positive width and a duration that is not negative, a click
    between the two edges gives a time between 0 and the duration, 0 at
    the left edge and the duration at the right edge. *)
Theorem handleClick_within_duration (clientX left width d : Q) :
  0 < width -> 0 <= d -> left <= clientX -> clientX <= left + width ->
  exists newTime,
    ProgressBar.handleClick (Fin clientX) (Fin left) (Fin width) (Fin d)
    = Fin newTime
    /\ 0 <= newTime /\ newTime <= d
    /\ (clientX == left -> newTime == 0)
    /\ (clientX == left + width -> newTime == d).
Proof.
  intros Hwidth Hd Hleft Hright. unfold ProgressBar.handleClick.
  cbn [JS.sub]. rewrite div_fin by lra. eexists. split; [reflexivity|].
  assert (H0 : 0 <= (clientX - left) / width)
    by (apply Qle_shift_div_l; lra).
  assert (H1 : (clientX - left) / width <= 1)
    by (apply Qle_shift_div_r; lra).
  split; [|split; [|split]].
  - apply Qmult_le_0_compat; assumption.
  - set (r := (clientX - left) / width) in *. nra.
  - intros Heq. rewrite Heq. field. lra.
  - intros Heq. rewrite Heq. field. lra.
Qed.

Lemma handleClick_within_duration_witness :
  exists newTime,
    ProgressBar.handleClick (Fin 150) (Fin 100) (Fin 200) (Fin 147) = Fin newTime
    /\ 0 <= newTime /\ newTime <= 147.
Proof.
  destruct (handleClick_within_duration 150 100 200 147) as (t & Ht & H0 & H1 & _);
    try (unfold Qle, Qlt; simpl; lia).
  exists t. auto.
Defined.

End Percentages.

(** ** Agreement of the views *)
Section Views.

Lemma Le_refl (a : number) : a <> NaN -> JS.Le a a.
Proof.
  destruct a as [q| | |]; intros H.
  - constructor. apply Qle_refl.
  - constructor. discriminate.
  - constructor. discriminate.
  - congruence.
Qed.

Lemma Le_not_nan_l (a b : number) : JS.Le a b -> a <> NaN.
Proof. by destruct 1. Qed.

Lemma NoDup_map_inj {A B : Type} (f : A -> B) (l : list A) (x y : A) :
  NoDup (List.map f l) -> x ∈ l -> y ∈ l -> f x = f y -> x = y.
Proof.
  induction l as [|a l IH]; intros Hnd Hx Hy Hf.
  - by apply elem_of_nil in Hx.
  - simpl in Hnd. apply NoDup_cons in Hnd as [Hnotin Hnd].
    apply elem_of_cons in Hx as [->|Hx]; apply elem_of_cons in Hy as [->|Hy].
    + reflexivity.
    + exfalso. apply Hnotin. rewrite Hf.
      apply list_elem_of_In, List.in_map, list_elem_of_In, Hy.
    + exfalso. apply Hnotin. rewrite <- Hf.
      apply list_elem_of_In, List.in_map, list_elem_of_In, Hx.
    + by apply IH.
Qed.

(** X20.  The views agree on the current segment: the segment that the
    progress bar takes as current is one of the segments, it is marked
    active in the lyric lines, its block is the active one and its
    word-timing panel is shown.  The bar has a current segment as soon
    as the lyric lines mark some segment active, and the list of panels
    is empty exactly when the bar has none. *)
Theorem views_agree_on_current_segment (segments : list Segment.t)
    (time : number) :
  (forall segment,
      ProgressBar.getCurrentSegment segments time = Some segment ->
      segment ∈ segments
      /\ LyricsDisplay.isSegmentActive time segment = true
      /\ ProgressBar.isActive segments time segment = true
      /\ is_Some (WordTimingDisplay.render segment time))
  /\ (forall segment,
         segment ∈ segments ->
         LyricsDisplay.isSegmentActive time segment = true ->
         is_Some (ProgressBar.getCurrentSegment segments time))
  /\ (forall mode translations,
         App.wordTiming (App.resolve segments mode translations time) = []
         <-> ProgressBar.getCurrentSegment segments time = None).
Proof.
  split; [|split].
  - intros segment H. unfold ProgressBar.isActive. rewrite H.
    apply find_some in H as [Hin Hp]. split; [by apply list_elem_of_In|].
    split; [exact Hp|]. split; [by apply bool_decide_eq_true_2|].
    unfold WordTimingDisplay.render, WordTimingDisplay.isSegmentActive.
    rewrite Hp. simpl. eauto.
  - intros segment Hin Hactive.
    destruct (ProgressBar.getCurrentSegment segments time) eqn:E; [eauto|].
    pose proof (proj1 (find_none _ _) E segment Hin) as Hnone.
    unfold LyricsDisplay.isSegmentActive in Hactive. simpl in Hnone.
    congruence.
  - intros mode translations. unfold App.resolve, ProgressBar.getCurrentSegment.
    cbn [App.wordTiming]. induction segments as [|segment l IH]; [done|].
    simpl. destruct (JS.ge time (Segment.start segment)
                     && JS.le time (Segment.end_ segment)); simpl.
    + split; discriminate.
    + exact IH.
Qed.

(** X21.  When the ids of the segments are distinct, the bar marks one
    block at most: a block is active exactly when its segment is the
    current one. *)
Theorem isActive_marks_only_current (segments : list Segment.t)
    (time : number) (segment : Segment.t) :
  NoDup (List.map Segment.id segments) ->
  segment ∈ segments ->
  (ProgressBar.isActive segments time segment = true
   <-> ProgressBar.getCurrentSegment segments time = Some segment).
Proof.
  intros Hnd Hin. unfold ProgressBar.isActive.
  destruct (ProgressBar.getCurrentSegment segments time) as [current|] eqn:E.
  - rewrite bool_decide_eq_true. split; [|by intros [= ->]].
    intros Hid. f_equal. apply find_some in E as [Hcur _].
    apply (NoDup_map_inj Segment.id segments); auto.
    by apply list_elem_of_In.
  - split; discriminate.
Qed.

Lemma isActive_marks_only_current_witness :
  let A := Segment.mk "a" "A" (Fin 0) (Fin 5) [] in
  let B := Segment.mk "b" "B" (Fin 4) (Fin 9) [] in
  ProgressBar.isActive [A; B] (Fin (9 # 2)) B = true
  <-> ProgressBar.getCurrentSegment [A; B] (Fin (9 # 2)) = Some B.
Proof.
  intros A B. apply (isActive_marks_only_current [A; B] (Fin (9 # 2)) B).
  - simpl. by apply (bool_decide_unpack _).
  - apply elem_of_cons. right. apply elem_of_cons. by left.
Defined.

(** X22.  A click on a word leads to that word: in each of the three
    views the element of a word asks to seek to the start of the word,
    and once the seek handler has run with that time a word whose
    bounds are in order is active in the lyric lines and in the timing
    panel, the boundary being inclusive. *)
Theorem click_on_word_activates_it (word : Word.t) (st : App.state) :
  JS.Le (Word.start word) (Word.end_ word) ->
  (forall time translations mode count index,
      exists element rest,
        LyricsDisplay.renderWord time translations mode count index word
        = element :: rest
        /\ onClickOf element = Some (Word.start word))
  /\ LyricsDisplay.isWordActive
       (App.currentTime (App.handleSeek (Word.start word) st).1) word = true
  /\ WordTimingDisplay.isWordActive word
       (App.currentTime (App.handleSeek (Word.start word) st).1) = true.
Proof.
  intros Hle. split.
  - intros time translations mode count index.
    unfold LyricsDisplay.renderWord. destruct mode; eexists _, _; by split.
  - rewrite handleSeek_currentTime.
    assert (H : JS.within (Word.start word) (Word.end_ word) (Word.start word)).
    { split; [|exact Hle]. apply Le_refl. by eapply Le_not_nan_l. }
    apply containment_spec in H. by split.
Qed.

Lemma click_on_word_activates_it_witness :
  let word := Word.mk "Sample" (Fin (1 # 2)) (Fin (3 # 2)) (Fin (8 # 10)) [] None in
  LyricsDisplay.isWordActive
    (App.currentTime (App.handleSeek (Word.start word) App.initial).1) word
  = true.
Proof.
  intros word.
  assert (Hle : JS.Le (Word.start word) (Word.end_ word))
    by (constructor; unfold Qle; simpl; lia).
  exact (proj1 (proj2 (click_on_word_activates_it word App.initial Hle))).
Defined.

End Views.

(** ** The text of the lyric views *)
Section ViewText.

Lemma textContent_Element (tag className : string) (onClick : option number)
    (children : list node) :
  textContent (Element tag className onClick children) = textOf children.
Proof. reflexivity. Qed.

Lemma textOf_app (a b : list node) : textOf (a ++ b) = textOf a +:+ textOf b.
Proof.
  induction a as [|n a IH]; [reflexivity|].
  change (textOf ((n :: a) ++ b)) with (textContent n +:+ textOf (a ++ b)).
  change (textOf (n :: a)) with (textContent n +:+ textOf a).
  by rewrite IH, append_assoc.
Qed.

Lemma concat_two (sep a b : string) (l : list string) :
  String.concat sep (a :: b :: l) = a +:+ sep +:+ String.concat sep (b :: l).
Proof. reflexivity. Qed.

(** Pieces that each end with a separator unless they come last read as
    the pieces joined by the separator. *)
Lemma textOf_joined {A : Type} (f : A -> string) (sep : string) (n : nat) :
  forall (l : list A) (k : nat) (h : nat -> A -> list node),
    (k + length l = n)%nat ->
    (forall i x,
        textOf (h i x)
        = f x +:+ (if (Z.of_nat (k + i) <? Z.of_nat n - 1)%Z then sep else "")) ->
    textOf (List.concat (imap h l)) = String.concat sep (List.map f l).
Proof.
  induction l as [|x l IH]; intros k h Hn Hh; [reflexivity|].
  rewrite imap_cons. cbn [List.concat]. rewrite textOf_app, Hh.
  rewrite (IH (S k) (h ∘ S)); cycle 1.
  { simpl in Hn. lia. }
  { intros i y. unfold compose. rewrite Hh. by replace (k + S i)%nat with (S k + i)%nat by lia. }
  destruct l as [|y l].
  - simpl in Hn. replace (Z.of_nat (k + 0) <? Z.of_nat n - 1)%Z with false
      by (symmetry; apply Z.ltb_ge; lia).
    simpl. by rewrite !append_empty_r.
  - simpl in Hn. replace (Z.of_nat (k + 0) <? Z.of_nat n - 1)%Z with true
      by (symmetry; apply Z.ltb_lt; lia).
    cbn [List.map]. rewrite concat_two. by rewrite append_assoc.
Qed.

Lemma concat_singletons {A : Type} (g : nat -> A -> node) (l : list A) :
  List.concat (imap (fun i x => [g i x]) l) = imap g l.
Proof.
  revert g. induction l as [|x l IH]; intros g; [reflexivity|].
  rewrite !imap_cons. cbn [List.concat]. simpl. f_equal. apply IH.
Qed.

Lemma textOf_renderTranslation (translations : bool) (word : Word.t) :
  textOf (LyricsDisplay.renderTranslation translations word)
  = translationSuffix translations word.
Proof. apply textContent_renderTranslation. Qed.

(** X23.  What a reader sees of a word: in the karaoke and the simple
    view the text of the word, in the syllable view its syllables joined
    by hyphens, and in all three the same translation suffix after it,
    the literal translation in brackets when translations are shown and
    the word has one. *)
Theorem text_of_word_views (time : number) (translations : bool)
    (word : Word.t) :
  textContent (LyricsDisplay.renderKaraokeView time translations word)
  = Word.text word +:+ translationSuffix translations word
  /\ textContent (LyricsDisplay.renderSimpleView translations word)
     = Word.text word +:+ translationSuffix translations word
  /\ textContent (LyricsDisplay.renderSyllableView time translations word)
     = String.concat "-" (List.map Syllable.text (Word.syllables word))
       +:+ translationSuffix translations word.
Proof.
  split; [|split].
  - unfold LyricsDisplay.renderKaraokeView. rewrite textContent_Element.
    change (textOf (Text (Word.text word)
                    :: LyricsDisplay.renderTranslation translations word))
      with (Word.text word
            +:+ textOf (LyricsDisplay.renderTranslation translations word)).
    by rewrite textOf_renderTranslation.
  - unfold LyricsDisplay.renderSimpleView. rewrite textContent_Element.
    change (textOf (Text (Word.text word)
                    :: LyricsDisplay.renderTranslation translations word))
      with (Word.text word
            +:+ textOf (LyricsDisplay.renderTranslation translations word)).
    by rewrite textOf_renderTranslation.
  - unfold LyricsDisplay.renderSyllableView.
    rewrite textContent_Element, textOf_app, textOf_renderTranslation.
    f_equal. rewrite <- concat_singletons.
    apply (textOf_joined Syllable.text "-" (length (Word.syllables word))
             (Word.syllables word) 0); [reflexivity|].
    intros i syllable. cbn [Nat.add].
    destruct (Z.of_nat i <? Z.of_nat (length (Word.syllables word)) - 1)%Z;
      unfold textOf; simpl; by rewrite !append_empty_r.
Qed.

(** X24.  A segment line reads as its words, as the view mode shows
    them, separated by single spaces. *)
Theorem text_of_segment_line (time : number) (translations : bool)
    (mode : LyricsDisplay.viewMode) (segment : Segment.t) :
  textContent (LyricsDisplay.renderSegment time translations mode segment)
  = String.concat " "
      (List.map (fun word => textContent (wordView time translations mode word))
         (Segment.words segment)).
Proof.
  unfold LyricsDisplay.renderSegment. rewrite textContent_Element.
  change (textOf [?n]) with (textContent n +:+ "").
  rewrite append_empty_r, textContent_Element.
  apply (textOf_joined _ " " (length (Segment.words segment))
           (Segment.words segment) 0); [reflexivity|].
  intros i word. cbn [Nat.add]. unfold LyricsDisplay.renderWord.
  fold (wordView time translations mode word).
  destruct (Z.of_nat i <? Z.of_nat (length (Segment.words segment)) - 1)%Z;
    unfold textOf; simpl; by rewrite !append_empty_r.
Qed.

End ViewText.

(** ** The time display *)
Section TimeDisplay.

Lemma Qfloor_unique (x : Q) (z : Z) :
  inject_Z z <= x -> x < inject_Z (z + 1) -> Qfloor x = z.
Proof.
  intros H1 H2. apply Z.le_antisymm.
  - assert (H : inject_Z (Qfloor x) < inject_Z (z + 1))
      by (eapply Qle_lt_trans; [apply Qfloor_le|exact H2]).
    rewrite <- Zlt_Qlt in H. lia.
  - rewrite <- (Qfloor_Z z). by apply Qfloor_resp_le.
Qed.

Lemma toString_integer (z : Z) :
  (Z.abs z < 2 ^ 53)%Z -> JSString.toString (Fin (inject_Z z)) = Some (pretty z).
Proof.
  intros H. unfold JSString.toString. rewrite Qfloor_Z.
  replace (Qeq_bool (inject_Z z) (inject_Z z)) with true
    by (symmetry; apply Qeq_bool_iff; reflexivity).
  apply Z.ltb_lt in H. by rewrite H.
Qed.

Lemma two_digits (s : Z) :
  (0 <= s < 60)%Z -> String.length (JSString.padStart 2 "0" (pretty s)) = 2%nat.
Proof.
  intros H.
  assert (Hk : exists k, (k < 60)%nat /\ s = Z.of_nat k)
    by (exists (Z.to_nat s); lia).
  destruct Hk as (k & Hk & ->).
  do 60 (destruct k as [|k]; [vm_compute; reflexivity|]). lia.
Qed.

(** The whole minutes and the remaining whole seconds of a time that is
    not negative. *)
Lemma floor_minutes_seconds (t : Q) :
  0 <= t ->
  Qfloor (t / 60) = (Qfloor t / 60)%Z
  /\ Qfloor (t - 60 * inject_Z (Qfloor (t / 60))) = (Qfloor t mod 60)%Z
  /\ (0 <= Qfloor t)%Z.
Proof.
  intros H0.
  assert (Hn1 := Qfloor_le t). assert (Hn2 := Qlt_floor t).
  assert (Hpos : (0 <= Qfloor t)%Z).
  { change 0%Z with (Qfloor 0). by apply Qfloor_resp_le. }
  set (n := Qfloor t) in *.
  assert (Hdiv := Z.div_mod n 60 ltac:(lia)).
  assert (Hmod := Z.mod_pos_bound n 60 ltac:(lia)).
  set (m := (n / 60)%Z) in *. set (s := (n mod 60)%Z) in *.
  assert (Hq : inject_Z n == 60 * inject_Z m + inject_Z s).
  { rewrite Hdiv at 1. rewrite inject_Z_plus, inject_Z_mult. reflexivity. }
  assert (Hs0 : 0 <= inject_Z s).
  { change 0 with (inject_Z 0). rewrite <- Zle_Qle. lia. }
  assert (Hs1 : inject_Z s + 1 <= 60).
  { change 60 with (inject_Z 60). change 1 with (inject_Z 1).
    rewrite <- inject_Z_plus, <- Zle_Qle. lia. }
  rewrite inject_Z_plus in Hn2. change (inject_Z 1) with 1 in Hn2.
  assert (Hm : Qfloor (t / 60) = m).
  { apply Qfloor_unique.
    - apply Qle_shift_div_l; lra.
    - rewrite inject_Z_plus. change (inject_Z 1) with 1.
      apply Qlt_shift_div_r; lra. }
  split; [exact Hm|]. split; [|exact Hpos].
  rewrite Hm. apply Qfloor_unique.
  - lra.
  - rewrite inject_Z_plus. change (inject_Z 1) with 1. lra.
Qed.

(** X25.  The time display of a time from 0 to below [2^52] seconds,
    where the quotient by 60 rounds to a double with the same whole part,
    shows the whole minutes, a colon, and the remaining whole seconds on
    exactly two digits: sixty times the minutes plus the seconds is the
    time rounded down.  The display of [NaN] is "NaN:NaN". *)
Theorem formatTime_minutes_and_seconds (t : Q) :
  0 <= t -> (Qfloor t < 2 ^ 52)%Z ->
  let minutes := (Qfloor t / 60)%Z in
  let seconds := (Qfloor t mod 60)%Z in
  AudioPlayer.formatTime (Fin t)
  = Some (pretty minutes +:+ ":" +:+ JSString.padStart 2 "0" (pretty seconds))
  /\ String.length (JSString.padStart 2 "0" (pretty seconds)) = 2%nat
  /\ (60 * minutes + seconds = Qfloor t)%Z
  /\ (0 <= seconds < 60)%Z
  /\ AudioPlayer.formatTime NaN = Some "NaN:NaN".
Proof.
  intros H0 Hbound minutes seconds.
  destruct (floor_minutes_seconds t H0) as (Hm & Hs & Hpos).
  assert (Hmod := Z.mod_pos_bound (Qfloor t) 60 ltac:(lia)).
  assert (Hdiv := Z.div_mod (Qfloor t) 60 ltac:(lia)).
  fold minutes seconds in Hm, Hs, Hmod, Hdiv.
  split; [|split; [by apply two_digits|split; [lia|split; [lia|reflexivity]]]].
  unfold AudioPlayer.formatTime. rewrite div_fin by lra.
  unfold JS.rem. replace (Qeq_bool 60 0) with false by reflexivity.
  unfold JS.Qtrunc.
  replace (Qle_bool 0 (t / 60)) with true; cycle 1.
  { symmetry. apply Qle_bool_iff. apply Qle_shift_div_l; lra. }
  cbn [JS.Math_floor]. rewrite Hm in Hs |- *. rewrite Hs.
  rewrite !toString_integer; [reflexivity| |].
  - lia.
  - assert (0 <= minutes)%Z by (apply Z.div_pos; lia).
    assert (minutes < 2 ^ 52)%Z by (apply Z.div_lt_upper_bound; lia).
    lia.
Qed.

Lemma formatTime_minutes_and_seconds_witness :
  AudioPlayer.formatTime (Fin (14246 # 100)) = Some "2:22".
Proof.
  apply (proj1 (formatTime_minutes_and_seconds (14246 # 100)
                  ltac:(unfold Qle; simpl; lia) ltac:(vm_compute; reflexivity))).
Defined.

End TimeDisplay.

(** ** Seeking, further *)
Section SeekMore.

(** X26.  A seek moves the position and nothing else: the play state,
    the speed, the rate and the paused flag of the element are the same
    after the seek handler, and so are the document, the durations and
    the view settings.  When the time is finite and the element is
    there, the element and the player take the time; when the time is
    not finite the element refuses with a [TypeError] and keeps its
    position, while the application holds the time it was given. *)
Theorem seek_moves_position_only (time : number) (st : App.state) :
  playback (App.handleSeek time st).1 = playback st
  /\ App.duration (App.handleSeek time st).1 = App.duration st
  /\ App.activeTab (App.handleSeek time st).1 = App.activeTab st
  /\ (forall player audio,
         App.audioPlayerRef st = Some player ->
         AudioPlayer.audioRef player = Some audio ->
         (HTMLAudioElement.isFinite time = true ->
          (App.handleSeek time st).2 = Normal
          /\ exists player' audio',
              App.audioPlayerRef (App.handleSeek time st).1 = Some player'
              /\ AudioPlayer.currentTime player' = time
              /\ AudioPlayer.audioRef player' = Some audio'
              /\ HTMLAudioElement.currentTime audio' = time)
         /\ (HTMLAudioElement.isFinite time = false ->
             (App.handleSeek time st).2 = TypeError
             /\ App.audioPlayerRef (App.handleSeek time st).1 = Some player
             /\ App.currentTime (App.handleSeek time st).1 = time)).
Proof.
  unfold playback, App.handleSeek, AudioPlayer.seekToTime,
    HTMLAudioElement.set_currentTime.
  destruct st as [ct d vm tr doc tab [player|]]; simpl; [|by repeat split].
  destruct player as [[audio|] playing pt pd speed]; simpl.
  - destruct (HTMLAudioElement.isFinite time) eqn:E; simpl.
    + split; [reflexivity|]. split; [reflexivity|]. split; [reflexivity|].
      intros player audio0 [= <-] [= <-]. split; [|discriminate].
      intros _. split; [reflexivity|]. by eexists _, _.
    + split; [reflexivity|]. split; [reflexivity|]. split; [reflexivity|].
      intros player audio0 [= <-] [= <-]. split; [discriminate|]. by intros _.
  - split; [reflexivity|]. split; [reflexivity|]. split; [reflexivity|].
    intros player audio0 [= <-]. discriminate.
Qed.

Lemma seek_moves_position_only_witness :
  playback (App.handleSeek (Fin 12) seekExample).1
  = Some (true, Fin 70, Some (Fin (7 # 10), false)).
Proof.
  exact (proj1 (seek_moves_position_only (Fin 12) seekExample)).
Defined.

(** X27.  A click on the progress bar does not reach the player: the
    player and its element are as before, and the next time the engine
    reports its position the current time goes back to the position of
    the element, whatever time the click asked for. *)
Theorem progress_bar_click_does_not_seek (clientX left width : number)
    (st : App.state) :
  App.audioPlayerRef (App.onProgressBarClick clientX left width st)
  = App.audioPlayerRef st
  /\ App.currentTime (App.onProgressBarClick clientX left width st)
     = ProgressBar.handleClick clientX left width (App.progressBarDuration st)
  /\ (forall player audio,
         App.audioPlayerRef st = Some player ->
         AudioPlayer.audioRef player = Some audio ->
         App.currentTime
           (App.onAudioTimeUpdate
              (App.onProgressBarClick clientX left width st))
         = HTMLAudioElement.currentTime audio).
Proof.
  split; [reflexivity|]. split; [reflexivity|].
  intros player audio Hplayer Haudio.
  unfold App.onAudioTimeUpdate, App.onProgressBarClick, App.onProgressBarSeek.
  simpl. by rewrite Hplayer, Haudio.
Qed.

Lemma progress_bar_click_does_not_seek_witness :
  App.currentTime
    (App.onAudioTimeUpdate
       (App.onProgressBarClick (Fin 150) (Fin 100) (Fin 200) seekExample))
  = Fin 3.
Proof.
  exact (proj2 (proj2 (progress_bar_click_does_not_seek (Fin 150) (Fin 100)
                         (Fin 200) seekExample))
           _ _ eq_refl eq_refl).
Defined.

(** X29.  The block of a segment: for a positive duration and a segment
    between 0 and the duration with its bounds in order, the left edge
    and the width are finite percentages, each between 0 and 100.  The
    blocks are not guarded against a zero duration: the left edge is then
    not a finite number. *)
Theorem segment_block_on_track (segment : Segment.t) (s e : Q) :
  Segment.start segment = Fin s -> Segment.end_ segment = Fin e ->
  (forall d : Q,
      0 < d -> 0 <= s -> s <= e -> e <= d ->
      exists a b,
        ProgressBar.startPercent segment (Fin d) = Fin a
        /\ ProgressBar.widthPercent segment (Fin d) = Fin b
        /\ 0 <= a /\ a <= 100 /\ 0 <= b /\ b <= 100)
  /\ HTMLAudioElement.isFinite (ProgressBar.startPercent segment (Fin 0))
     = false.
Proof.
  intros Hs He. unfold ProgressBar.startPercent, ProgressBar.widthPercent.
  rewrite Hs, He. split.
  - intros d Hd H0 Hse Hed. cbn [JS.sub]. rewrite !div_fin by lra.
    eexists _, _. split; [reflexivity|]. split; [reflexivity|].
    assert (Ha0 : 0 <= s / d) by (apply Qle_shift_div_l; lra).
    assert (Ha1 : s / d <= 1) by (apply Qle_shift_div_r; lra).
    assert (Hb0 : 0 <= (e - s) / d) by (apply Qle_shift_div_l; lra).
    assert (Hb1 : (e - s) / d <= 1) by (apply Qle_shift_div_r; lra).
    set (a := s / d) in *. set (b := (e - s) / d) in *.
    repeat split; lra.
  - simpl. destruct (Qeq_bool s 0); [reflexivity|].
    simpl. by destruct (Qle_bool 0 s).
Qed.

(** The first segment of the sample, from 0.5 to 4 seconds of 147. *)
Lemma segment_block_on_track_witness :
  let segment := Segment.mk "seg_001" "Sample Turkish text" (Fin (1 # 2)) (Fin 4) [] in
  exists a b,
    ProgressBar.startPercent segment (Fin 147) = Fin a
    /\ ProgressBar.widthPercent segment (Fin 147) = Fin b
    /\ 0 <= a /\ a <= 100 /\ 0 <= b /\ b <= 100.
Proof.
  intros segment.
  apply (proj1 (segment_block_on_track segment (1 # 2) 4 eq_refl eq_refl) 147);
    unfold Qle, Qlt; simpl; lia.
Defined.

End SeekMore.

Lemma views_agree_on_current_segment_witness :
  let A := Segment.mk "a" "A" (Fin 0) (Fin 5) [] in
  let B := Segment.mk "b" "B" (Fin 4) (Fin 9) [] in
  LyricsDisplay.isSegmentActive (Fin (9 # 2)) A = true
  /\ ProgressBar.isActive [A; B] (Fin (9 # 2)) A = true.
Proof.
  intros A B.
  destruct (proj1 (views_agree_on_current_segment [A; B] (Fin (9 # 2))) A eq_refl)
    as (_ & Hactive & Hblock & _).
  by split.
Defined.
